(** * refact_self_hosting.routers: request routers and stream adapters

    A shallow embedding of [src/refact_self_hosting/routers.py]: the two
    async generators [inference_streamer] and [chat_delta_streamer], and the
    three endpoint coroutines [_completion], [_contrast] and [_chat].

    Python values are modelled as follows.
    - a [str] that is measured or sliced (the text of a source file, the
      content of a choice) is a [text], the list of its code points:
      [len] is the length of the list and [s[n:]] is [str_from]; a [str]
      that is only compared and concatenated (names, keys, messages) is a
      [string], the bytes of its UTF-8 form.
    - [int] is [Z].
    - a [dict] used as a map is a [gmap]; a [dict] whose order of
      insertion shows is a list of items.
    - an async generator is a value of [gen]: the chunks it yields, in order,
      and the way it ends (it returns, or an exception leaves it).
    - a coroutine that may raise is a value of [completion].

    The calls to [logging], the [authorization] header, which the
    endpoints accept and never read, and the registration of the routes
    are left out. *)

From Stdlib Require Import ZArith Lia Ascii.
From stdpp Require Import base option list strings gmap pretty.

Local Open Scope Z_scope.

(** ** Strings *)

(** The line feed, Python's ["\n"]. *)
Definition LF : string := String "010"%char "".

(** A Python [str] as the sequence of its code points. *)
Abbreviation text := (list N).

(** [s[n:]] for a non-negative [n]: past the end it is the empty string. *)
Definition str_from (n : nat) (s : text) : text := drop n s.

(** [len(s)] as a Python integer: the number of code points. *)
Definition len (s : text) : Z := Z.of_nat (length s).

(** The text a Rocq string holds in UTF-8, to write texts as literals:
    [acc] gathers the bits of a character of which [more] bytes are still
    to come. *)
Fixpoint utf8_decode (acc : N) (more : nat) (s : string) : text :=
  match s with
  | EmptyString => []
  | String b s' =>
      let n := N_of_ascii b in
      match more with
      | S O => (acc * 64 + n mod 64)%N :: utf8_decode 0 0 s'
      | S more' => utf8_decode (acc * 64 + n mod 64) more' s'
      | O =>
          if (n <? 128)%N then n :: utf8_decode 0 0 s'
          else if (n <? 224)%N then utf8_decode (n mod 32) 1 s'
          else if (n <? 240)%N then utf8_decode (n mod 16) 2 s'
          else utf8_decode (n mod 8) 3 s'
      end
  end.

Definition codepoints (s : string) : text := utf8_decode 0 0 s.

(** The UTF-8 form of a text, to show texts. *)
Definition utf8_char (c : N) : string :=
  let byte (n : N) (rest : string) := String (ascii_of_N n) rest in
  let tail (n : N) (rest : string) := byte (128 + n mod 64)%N rest in
  if (c <? 128)%N then byte c ""
  else if (c <? 2048)%N then byte (192 + c / 64)%N (tail c "")
  else if (c <? 65536)%N then
    byte (224 + c / 4096)%N (tail (c / 64)%N (tail c ""))
  else
    byte (240 + c / 262144)%N
      (tail (c / 4096)%N (tail (c / 64)%N (tail c ""))).

Definition utf8 (s : text) : string :=
  foldr (λ c rest, utf8_char c +:+ rest) "" s.

(** ["%d" % n]. *)
Definition fmt_d (n : Z) : string := pretty n.

(** ** Exceptions, coroutines and generators *)

Inductive exn : Type :=
| CancelledError
| KeyError (key : string)
| HTTPException (status_code : Z) (detail : string).

(** How a piece of code ends: it returns a value or an exception leaves it. *)
Inductive completion (A : Type) : Type :=
| Returns (a : A)
| Raises (e : exn).
Arguments Returns {A} a.
Arguments Raises {A} e.

#[global] Instance completion_ret : MRet completion := λ A a, Returns a.
#[global] Instance completion_bind : MBind completion := λ A B f m,
  match m with
  | Returns a => f a
  | Raises e => Raises e
  end.

(** An async generator that has been driven to its end by a consumer that
    never closes it early: what it yielded and how it ended. *)
Record gen (A : Type) : Type := Gen {
  chunks : list string;
  ended : completion A
}.
Arguments Gen {A} chunks ended.
Arguments chunks {A} g.
Arguments ended {A} g.

#[global] Instance gen_ret : MRet gen := λ A a, Gen [] (Returns a).
#[global] Instance gen_bind : MBind gen := λ A B f m,
  match ended m with
  | Returns a => Gen (chunks m ++ chunks (f a)) (ended (f a))
  | Raises e => Gen (chunks m) (Raises e)
  end.

(** [yield c]. *)
Definition yield (c : string) : gen unit := Gen [c] (Returns tt).

(** [raise e] inside a generator. *)
Definition throw {A} (e : exn) : gen A := Gen [] (Raises e).

(** [try: body  except ...: handler]; [handler e] re-raises what the
    [except] clause does not match. *)
Definition try_except {A} (body : gen A) (handler : exn → gen A) : gen A :=
  match ended body with
  | Returns a => body
  | Raises e => Gen (chunks body ++ chunks (handler e)) (ended (handler e))
  end.

(** [await] of something that either resumes normally ([None]) or has an
    exception thrown into the awaiting code, as a cancelled task has. *)
Definition await (outcome : option exn) : gen unit :=
  match outcome with
  | None => mret tt
  | Some e => throw e
  end.

(** [except asyncio.CancelledError: logging.info(...)]: the cancellation is
    swallowed, anything else propagates. *)
Definition on_cancelled (e : exn) : gen unit :=
  match e with
  | CancelledError => mret tt
  | _ => throw e
  end.

(** ** Splitting a string and ordered dicts *)

(** [s.split(sep)] for a separator of one character: the pieces between
    the occurrences of [sep], empty pieces included; never an empty list. *)
Fixpoint str_split (sep : ascii) (s : string) : list string :=
  match s with
  | EmptyString => [EmptyString]
  | String c s' =>
      if decide (c = sep) then EmptyString :: str_split sep s'
      else match str_split sep s' with
           | piece :: pieces => String c piece :: pieces
           | [] => [String c EmptyString]
           end
  end.

(** The characters of a string. *)
Fixpoint chars (s : string) : list ascii :=
  match s with
  | EmptyString => []
  | String c s' => c :: chars s'
  end.

(** A Python dict whose order of insertion matters, as a list of items in
    that order with distinct keys.  [setitem k v d] is [d[k] = v]: a key
    that is there keeps its place and takes the new value, a new key goes
    to the end. *)
Fixpoint setitem {V : Type} (k : string) (v : V) (d : list (string * V))
  : list (string * V) :=
  match d with
  | [] => [(k, v)]
  | (k', v') :: d' =>
      if decide (k' = k) then (k, v) :: d' else (k', v') :: setitem k v d'
  end.

(** [d.get(k)]. *)
Fixpoint getitem {V : Type} (k : string) (d : list (string * V)) : option V :=
  match d with
  | [] => None
  | (k', v') :: d' => if decide (k' = k) then Some v' else getitem k d'
  end.

(** ** The authorization header (lines 72-78) *)

(** [authorization] is [None] when the request has no such header.  The
    token is [bearer_hdr[1]], which is there as the list has two items. *)
Definition parse_authorization_header (authorization : option string)
  : completion string :=
  match authorization with
  | None => Raises (HTTPException 401 "missing authorization header")
  | Some authorization =>
      let bearer_hdr := str_split " " authorization in
      if decide (length bearer_hdr ≠ 2%nat
                 ∨ bearer_hdr !! 0%nat ≠ Some "Bearer")
      then Raises (HTTPException 401 "invalid authorization header")
      else Returns (default "" (bearer_hdr !! 1%nat))
  end.

Section Routers.

(** Values whose structure the routers never look at (floats, message
    lists, stop sequences, the extra keys of a snapshot). *)
Context {Other : Type}.

(** ** Data *)

(** The values stored in a canonical request and in [model_dict]. *)
Inductive value : Type :=
| VStr (s : string)
| VInt (n : Z)
| VBool (b : bool)
| VDict (d : list (string * text))
| VOther (o : Other).

(** One entry of a snapshot's ["choices"]: [seen: Dict[int, str]] fixes the
    types of ["index"] and ["content"]; ["content"] and ["delta"] may be
    absent; [more] holds the keys the adapter never touches. *)
Record choice : Type := Choice {
  index : Z;
  content : option text;
  delta : option text;
  more : Other
}.

(** A snapshot yielded by the backend: ["choices"] may be absent. *)
Record snapshot : Type := Snapshot {
  choices : option (list choice);
  extra : Other
}.

(** What the adapter observes of [inference.infer(request, stream)], in the
    order its awaits resolve: the iterator is exhausted, the pending
    [__anext__] raises, or it delivers an item ([None] for "nothing yet")
    and [wake] is the outcome of the [await asyncio.sleep(0)] that follows
    the handling of a snapshot.  An item is the snapshot as the adapter
    finds it on arrival: the chat adapter rewrites the dict it is given,
    so a backend that hands over the same dict again hands over what is
    left of it. *)
Inductive feed : Type :=
| Stop
| Throw (e : exn)
| Item (item : option snapshot) (wake : option exn) (rest : feed).

(** The backend object: its read-only state and its [infer] method. *)
Record Inference : Type := {
  model_name : option string;
  model_dict : gmap string value;
  chat_is_available : bool;
  last_error : option string;
  infer : gmap string value → value → feed
}.

(** ** Request parameters *)

(** Modelled from the spec: the classes of [refact_self_hosting.params] are
    not part of the sources; section 3 of the specification gives them a
    shared base of sampling controls and mode-specific fields.  Only the
    attributes the routers read or assign are named; [controls] stands for
    the remaining sampling controls. *)
Record SamplingParams : Type := {
  model : string;
  stop : value;
  stream : bool;
  max_tokens : Z;
  controls : Other
}.

Record TextSamplingParams : Type := {
  text_base :> SamplingParams;
  prompt : string;
  echo : bool
}.

Record DiffSamplingParams : Type := {
  diff_base :> SamplingParams;
  intent : string;
  sources : list (string * text);
  cursor_file : string;
  cursor0 : Z;
  cursor1 : Z;
  function : string;
  max_edits : Z
}.

Record ChatSamplingParams : Type := {
  chat_base :> SamplingParams;
  messages : value
}.

(** [fastapi.responses.StreamingResponse(content)]. *)
Record StreamingResponse : Type := {
  body_iterator : gen unit
}.

(** ** What the routers take from elsewhere *)

(** [truth o] is [bool(o)] for a value the routers do not look into.
    [dumps] is [json.dumps], a library function outside the repository.
    [keys_repr keys] is ["%s" % keys] for a list of keys.
    [clamp_text], [clamp_diff] and [clamp_chat] are [post.clamp()], a
    method of the params classes, which are not among the sources; the
    specification gives its contract: it returns a mapping from control
    names to clamped values and never raises. *)
Class Externals : Type := {
  truth : Other → bool;
  dumps : snapshot → string;
  keys_repr : list string → string;
  clamp_text : TextSamplingParams → gmap string value;
  clamp_diff : DiffSamplingParams → gmap string value;
  clamp_chat : ChatSamplingParams → gmap string value
}.

Context `{!Externals}.

(** Python's truth value, as [if stream:] takes it. *)
Definition truthy (v : value) : bool :=
  match v with
  | VStr s => negb (String.eqb s "")
  | VInt n => negb (Z.eqb n 0)
  | VBool b => b
  | VDict d => negb (bool_decide (d = []))
  | VOther o => truth o
  end.

(** [d[key]]: a missing key raises [KeyError]. *)
Definition subscript (d : gmap string value) (key : string) : gen value :=
  match d !! key with
  | Some v => mret v
  | None => throw (KeyError key)
  end.

(** ** The plain stream adapter (lines 22-43) *)

(** The terminal marker ["data: [DONE]" + "\n\n"]. *)
Definition done_chunk : string := "data: [DONE]" +:+ LF +:+ LF.

(** The body of [async for response in ...] (lines 29-36); it returns the
    value of [data_str] when the loop is left. *)
Fixpoint inference_loop (stream : bool) (data_str : string) (s : feed)
  : gen string :=
  match s with
  | Stop => mret data_str
  | Throw e => throw e
  | Item None _ rest => inference_loop stream data_str rest
  | Item (Some response) wake rest =>
      let data_str := dumps response in
      data_str ← (if stream then
                    let data_str := "data: " +:+ data_str +:+ LF +:+ LF in
                    yield data_str;; mret data_str
                  else mret data_str);
      await wake;;
      inference_loop stream data_str rest
  end.

Definition inference_streamer (request : gmap string value)
    (inference : Inference) : gen unit :=
  try_except
    (stream ← subscript request "stream";
     let data_str := "" in
     data_str ← inference_loop (truthy stream) data_str
                  (infer inference request stream);
     if truthy stream then yield done_chunk else yield data_str)
    on_cancelled.

(** ** The chat delta adapter (lines 46-69) *)

(** The body of [for ch in response["choices"]] (lines 57-63) for one
    choice: [seen] is threaded through, the choice is rewritten in place. *)
Definition rewrite_choice (seen : gmap Z text) (ch : choice)
  : gmap Z text * choice :=
  let idx := index ch in
  let seen_here := default [] (seen !! idx) in
  let content_ := default [] (content ch) in
  let delta_ := str_from (length seen_here) content_ in
  let seen := <[idx := content_]> seen in
  (* ch["delta"] is set, ch["content"] is deleted when it is there *)
  (seen, {| index := idx; content := None; delta := Some delta_;
            more := more ch |}).

Fixpoint rewrite_choices (seen : gmap Z text) (chs : list choice)
  : gmap Z text * list choice :=
  match chs with
  | [] => (seen, [])
  | ch :: chs =>
      let '(seen, ch) := rewrite_choice seen ch in
      let '(seen, chs) := rewrite_choices seen chs in
      (seen, ch :: chs)
  end.

(** Lines 55-63: a snapshot without ["choices"] is left as it is. *)
Definition rewrite_response (seen : gmap Z text) (response : snapshot)
  : gmap Z text * snapshot :=
  match choices response with
  | Some chs =>
      let '(seen, chs) := rewrite_choices seen chs in
      (seen, {| choices := Some chs; extra := extra response |})
  | None => (seen, response)
  end.

(** The body of [async for response in ...] (lines 52-66). *)
Fixpoint chat_loop (seen : gmap Z text) (s : feed) : gen unit :=
  match s with
  | Stop => mret tt
  | Throw e => throw e
  | Item None _ rest => chat_loop seen rest
  | Item (Some response) wake rest =>
      let '(seen, response) := rewrite_response seen response in
      let tmp := dumps response in
      yield ("data: " +:+ tmp +:+ LF +:+ LF);;
      await wake;;
      chat_loop seen rest
  end.

Definition chat_delta_streamer (request : gmap string value)
    (inference : Inference) : gen unit :=
  let seen : gmap Z text := ∅ in
  try_except
    (chat_loop seen (infer inference request (VBool true));;
     yield done_chunk)
    on_cancelled.

(** [request.update({...})]: the new entries win over the old ones. *)
Definition update (request : gmap string value)
    (entries : list (string * value)) : gmap string value :=
  list_to_map entries ∪ request.

(** [if cond: raise e]. *)
Definition raise_if (P : Prop) `{!Decision P} (e : exn) : completion unit :=
  if decide P then Raises e else Returns tt.

(** ** The readiness checks *)

(** Lines 143-148, 211-214 and 253-256: the loaded model's name, or the
    rejection whose default [detail] differs between the endpoints. *)
Definition loaded_model (loading : string) (inference : Inference)
  : completion string :=
  match model_name inference with
  | None =>
      let last_error := last_error inference in
      Raises (HTTPException 401
                (match last_error with None => loading | Some e => e end))
  | Some name => Returns name
  end.

Definition mismatch_detail (requested server : string) : string :=
  "requested model '" +:+ requested +:+ "' doesn't match server model '"
    +:+ server +:+ "'".

Definition unknown_detail (server : string) : string :=
  "unknown model '" +:+ server +:+ "'".

Definition no_chat_detail (server : string) : string :=
  "chat is not available for " +:+ server +:+ " model".

(** [d == 0] for a dict [d]: neither [dict.__eq__] nor [int.__eq__] accepts
    the other operand, the comparison falls back to identity and is
    [False] for every dict, the empty one included. *)
Definition dict_eq_int (d : gmap string value) (n : Z) : bool := false.

(** ** /v1/completions (lines 129-163) *)

Definition _completion (post : TextSamplingParams) (uuid4 : string)
    (inference : Inference) : completion StreamingResponse :=
  let request := clamp_text post in
  let request := update request [
    ("id", VStr uuid4);
    ("object", VStr "text_completion_req");
    ("model", VStr (model post));
    ("prompt", VStr (prompt post));
    ("stop_tokens", stop post);
    ("stream", VBool (stream post));
    ("echo", VBool (echo post))] in
  server_model ← loaded_model "model is loading" inference;
  raise_if (model post ≠ "" ∧ model post ≠ "CONTRASTcode"
            ∧ server_model ≠ model post)
    (HTTPException 401 (mismatch_detail (model post) server_model));;
  raise_if (negb (dict_eq_int (model_dict inference) 0) = true)
    (HTTPException 401 (unknown_detail server_model));;
  let answer := {| body_iterator := inference_streamer request inference |} in
  mret answer.

(** ** /v1/contrast (lines 175-228) *)

Definition cursor_file_detail (post : DiffSamplingParams) : string :=
  "cursor_file='" +:+ cursor_file post +:+ "' is not in sources="
    +:+ keys_repr (sources post).*1.

Definition negative_detail (post : DiffSamplingParams) : string :=
  "cursor0=" +:+ fmt_d (cursor0 post) +:+ " or cursor1="
    +:+ fmt_d (cursor1 post) +:+ " is negative".

Definition beyond_detail (post : DiffSamplingParams) (filetext : text)
  : string :=
  "cursor0=" +:+ fmt_d (cursor0 post) +:+ " or cursor1="
    +:+ fmt_d (cursor1 post) +:+ " is beyond file length="
    +:+ fmt_d (len filetext).

(** [post.cursor0 = -1; post.cursor1 = -1; post.cursor_file = ""]. *)
Definition forget_cursor (post : DiffSamplingParams) : DiffSamplingParams :=
  {| diff_base := diff_base post; intent := intent post;
     sources := sources post; cursor_file := ""; cursor0 := -1;
     cursor1 := -1; function := function post;
     max_edits := max_edits post |}.

(** [post.max_tokens = 1]. *)
Definition one_token (post : DiffSamplingParams) : DiffSamplingParams :=
  {| diff_base := {| model := model post; stop := stop post;
                     stream := stream post; max_tokens := 1;
                     controls := controls post |};
     intent := intent post; sources := sources post;
     cursor_file := cursor_file post; cursor0 := cursor0 post;
     cursor1 := cursor1 post; function := function post;
     max_edits := max_edits post |}.

(** Lines 177-195: the checks on the cursor and the assignments to [post];
    the value returned is [post] as line 196 finds it. *)
Definition contrast_checks (post : DiffSamplingParams)
  : completion DiffSamplingParams :=
  post ← (if decide (function post ≠ "diff-anywhere") then
            match getitem (cursor_file post) (sources post) with
            | None => Raises (HTTPException 400 (cursor_file_detail post))
            | Some filetext =>
                raise_if (cursor0 post < 0 ∨ cursor1 post < 0)
                  (HTTPException 400 (negative_detail post));;
                raise_if (cursor0 post > len filetext
                          ∨ cursor1 post > len filetext)
                  (HTTPException 400 (beyond_detail post filetext));;
                mret post
            end
          else mret (forget_cursor post));
  mret (if decide (function post = "highlight") then one_token post
        else post).

(** Lines 196-210: the canonical request. *)
Definition contrast_request (post : DiffSamplingParams) (uuid4 : string)
  : gmap string value :=
  let request := clamp_diff post in
  update request [
    ("id", VStr uuid4);
    ("object", VStr "diff_completion_req");
    ("model", VStr (model post));
    ("intent", VStr (intent post));
    ("sources", VDict (sources post));
    ("cursor_file", VStr (cursor_file post));
    ("cursor0", VInt (cursor0 post));
    ("cursor1", VInt (cursor1 post));
    ("function", VStr (function post));
    ("max_edits", VInt (max_edits post));
    ("stop_tokens", stop post);
    ("stream", VBool (stream post))].

Definition _contrast (post : DiffSamplingParams) (uuid4 : string)
    (inference : Inference) : completion StreamingResponse :=
  post ← contrast_checks post;
  let request := contrast_request post uuid4 in
  server_model ← loaded_model "model loading" inference;
  raise_if (model post ≠ "" ∧ model post ≠ "CONTRASTcode"
            ∧ server_model ≠ model post)
    (HTTPException 401 (mismatch_detail (model post) server_model));;
  raise_if (model_dict inference = ∅)
    (HTTPException 401 (unknown_detail server_model));;
  let answer := {| body_iterator := inference_streamer request inference |} in
  mret answer.

(** ** /v1/chat (lines 240-270) *)

Definition _chat (post : ChatSamplingParams) (uuid4 : string)
    (inference : Inference) : completion StreamingResponse :=
  let request := clamp_chat post in
  let request := update request [
    ("id", VStr uuid4);
    ("object", VStr "chat_completion_req");
    ("model", VStr (model post));
    ("messages", messages post);
    ("stop_tokens", stop post);
    ("stream", VBool true)] in
  server_model ← loaded_model "model loading" inference;
  raise_if (chat_is_available inference = false)
    (HTTPException 401 (no_chat_detail server_model));;
  raise_if (model post ≠ "" ∧ server_model ≠ model post)
    (HTTPException 401 (mismatch_detail (model post) server_model));;
  raise_if (model_dict inference = ∅)
    (HTTPException 401 (unknown_detail server_model));;
  mret {| body_iterator := chat_delta_streamer request inference |}.

(** ** Vocabulary of the statements on the adapters *)

(** A framed chunk: ["data: " + json.dumps(response) + "\n\n"]. *)
Definition sse (response : snapshot) : string :=
  "data: " +:+ dumps response +:+ LF +:+ LF.

(** The backend sequence that delivers the items of [l] and is then
    exhausted, while no cancellation reaches the adapter. *)
Definition uninterrupted (l : list (option snapshot)) : feed :=
  foldr (λ item rest, Item item None rest) Stop l.

(** The snapshots of a sequence that are not [None]. *)
Definition usable (l : list (option snapshot)) : list snapshot :=
  omap id l.

(** The exception, if any, that ends the iteration over a feed. *)
Fixpoint fate (s : feed) : option exn :=
  match s with
  | Stop => None
  | Throw e => Some e
  | Item None _ rest => fate rest
  | Item (Some _) (Some e) _ => Some e
  | Item (Some _) None rest => fate rest
  end.

(** The snapshots an adapter handles before the iteration ends. *)
Fixpoint taken (s : feed) : list snapshot :=
  match s with
  | Stop | Throw _ => []
  | Item None _ rest => taken rest
  | Item (Some r) (Some _) _ => [r]
  | Item (Some r) None rest => r :: taken rest
  end.

(** The snapshots the chat adapter serialises, in order, for the snapshots
    [l] it handles: [rewrite_response] replayed with its [seen]. *)
Fixpoint rewritten (seen : gmap Z text) (l : list snapshot)
  : list snapshot :=
  match l with
  | [] => []
  | r :: l =>
      let '(seen, r) := rewrite_response seen r in
      r :: rewritten seen l
  end.

Definition choices_of (r : snapshot) : list choice :=
  default [] (choices r).

(** All the choices with index [idx], in the order of the snapshots and of
    their ["choices"]. *)
Definition choices_for (idx : Z) (l : list snapshot) : list choice :=
  filter (λ ch, index ch = idx) (l ≫= choices_of).

(** The cumulative contents the adapter reads for [idx]. *)
Definition contents_for (idx : Z) (l : list snapshot) : list text :=
  (λ ch, default [] (content ch)) <$> choices_for idx l.

(** The deltas carried by the choices with index [idx]. *)
Definition deltas_for (idx : Z) (l : list snapshot) : list text :=
  (λ ch, default [] (delta ch)) <$> choices_for idx l.

(** The texts of a list, one after the other. *)
Definition join (l : list text) : text := concat l.

(** The final cumulative content: the last one reported. *)
Definition final (l : list text) : text := default [] (last l).

Fixpoint nondecreasing (l : list nat) : bool :=
  match l with
  | a :: (b :: _) as l' => (a <=? b)%nat && nondecreasing l'
  | _ => true
  end.

(** Every content is a prefix of the final text and the contents never
    get shorter. *)
Definition monotone_prefixes (l : list text) : bool :=
  forallb (λ c, bool_decide (c `prefix_of` final l)) l
  && nondecreasing (length <$> l).

(** The value of [data_str] after the snapshots [l] have been handled. *)
Definition latest (stream : bool) (data_str : string) (l : list snapshot)
  : string :=
  match last l with
  | None => data_str
  | Some r => if stream then sse r else dumps r
  end.

(** Each string is a prefix of the next one, starting from [p]. *)
Fixpoint chain (p : text) (l : list text) : Prop :=
  match l with
  | [] => True
  | c :: l => p `prefix_of` c ∧ chain c l
  end.

(** ** Vocabulary of the statements on the endpoints *)

(** One inbound call on one of the three generation endpoints. *)
Inductive call : Type :=
| Completion (post : TextSamplingParams)
| Contrast (post : DiffSamplingParams)
| Chat (post : ChatSamplingParams).

Definition serve (c : call) (uuid4 : string) (inference : Inference)
  : completion StreamingResponse :=
  match c with
  | Completion post => _completion post uuid4 inference
  | Contrast post => _contrast post uuid4 inference
  | Chat post => _chat post uuid4 inference
  end.

(** The model name the caller asked for. *)
Definition requested_model (c : call) : string :=
  match c with
  | Completion post => model post
  | Contrast post => model post
  | Chat post => model post
  end.

(** The rejections of the readiness checks. *)
Definition ModelMismatch (requested server : string) : exn :=
  HTTPException 401 (mismatch_detail requested server).

Definition UnknownModel (server : string) : exn :=
  HTTPException 401 (unknown_detail server).

Definition CapabilityUnavailable (server : string) : exn :=
  HTTPException 401 (no_chat_detail server).

(** The condition under which the specification expects [ModelMismatch]:
    a requested name that is not empty, not the wildcard and not the
    loaded model's. *)
Definition mismatch_expected (requested server : string) : Prop :=
  requested ≠ "" ∧ requested ≠ "CONTRASTcode" ∧ requested ≠ server.

(** The model-mismatch rule as the specification words it, for one call:
    with a model loaded, the call is rejected with [ModelMismatch] exactly
    when [mismatch_expected] holds. *)
Definition mismatch_rule_as_specified (c : call) (uuid4 : string)
    (inference : Inference) : Prop :=
  ∀ server, model_name inference = Some server →
    serve c uuid4 inference
    = Raises (ModelMismatch (requested_model c) server)
    ↔ mismatch_expected (requested_model c) server.

(** ** More vocabulary: the chat adapter, choice by choice *)

(** The deltas the adapter computes from the successive contents of one
    index, [prev] being the content seen before them. *)
Fixpoint deltas_of (prev : text) (contents : list text) : list text :=
  match contents with
  | [] => []
  | c :: contents => str_from (length prev) c :: deltas_of c contents
  end.

(** What the adapter leaves of a choice: its index and untouched keys, no
    ["content"], a ["delta"]. *)
Definition stripped (ch ch' : choice) : Prop :=
  index ch' = index ch ∧ more ch' = more ch
  ∧ content ch' = None ∧ is_Some (delta ch').

(** What the adapter leaves of a snapshot: its own keys, and its choices,
    one for one, stripped. *)
Definition relayed (r r' : snapshot) : Prop :=
  extra r' = extra r
  ∧ match choices r, choices r' with
    | None, None => True
    | Some chs, Some chs' => Forall2 stripped chs chs'
    | _, _ => False
    end.

(** ** More vocabulary: the canonical requests *)

(** Lines 245-252: the canonical request of the chat endpoint. *)
Definition chat_request (post : ChatSamplingParams) (uuid4 : string)
  : gmap string value :=
  let request := clamp_chat post in
  update request [
    ("id", VStr uuid4);
    ("object", VStr "chat_completion_req");
    ("model", VStr (model post));
    ("messages", messages post);
    ("stop_tokens", stop post);
    ("stream", VBool true)].

(** The keys the diff endpoint and the chat endpoint set themselves. *)
Definition contrast_keys : list string :=
  ["id"; "object"; "model"; "intent"; "sources"; "cursor_file"; "cursor0";
   "cursor1"; "function"; "max_edits"; "stop_tokens"; "stream"].

Definition chat_keys : list string :=
  ["id"; "object"; "model"; "messages"; "stop_tokens"; "stream"].

(** The cursor checks of the diff endpoint, as a condition on [post]. *)
Definition cursor_in_file (post : DiffSamplingParams) : Prop :=
  ∃ filetext, getitem (cursor_file post) (sources post) = Some filetext
    ∧ 0 ≤ cursor0 post ≤ len filetext
    ∧ 0 ≤ cursor1 post ≤ len filetext.

(** ** /v1/login (lines 81-117) *)

(** A record of [modelcap_records.db], a catalogue outside the repository:
    [rec.model] is a name or a list of names, [descriptor] is
    [json.loads(rec.to_json())], a dict in the order of its keys whose
    values may be [None]. *)
Record modelcap : Type := {
  rec_model : string + list string;
  function_name : string;
  descriptor : list (string * option value)
}.

(** The dict [response] of lines 109-116. *)
Record login_response : Type := {
  account : string;
  retcode : string;
  longthink_functions_today : Z;
  longthink_functions_today_v2 :
    list (string * list (string * option value));
  longthink_filters : list string;
  chat_v1_style : bool
}.

(** What the login endpoint can raise. *)
Inductive login_error : Type :=
| AssertionError (msg : string)
| TypeError.

(** [db] is [modelcap_records.db].  [py_in test caps] is [test in caps],
    [None] when Python raises [TypeError] as [caps] is no container.
    [dumps_login] is [json.dumps] on the response dict.
    [model_keys_repr d] is ["%s" % list(d.keys())]. *)
Class Catalog : Type := {
  db : list modelcap;
  py_in : string → value → option bool;
  dumps_login : login_response → string;
  model_keys_repr : gmap string value → string
}.

Context `{!Catalog}.

(** Lines 95-97: [rec.model] as a list. *)
Definition rec_models (rec : modelcap) : list string :=
  match rec_model rec with
  | inl name => [name]
  | inr names => names
  end.

(** Lines 98-101: the loop over [rec_models], which tries every name. *)
Fixpoint take_this_one (take : bool) (tests : list string)
    (filter_caps : value) : option bool :=
  match tests with
  | [] => Some take
  | test :: tests =>
      match py_in test filter_caps with
      | None => None
      | Some found =>
          take_this_one (if found then true else take) tests filter_caps
      end
  end.

(** Lines 103-107: the entry of a record that is taken. *)
Definition entry_of (rec : modelcap) (inference : Inference)
  : list (string * option value) :=
  let j := descriptor rec in
  let j := setitem "is_liked" (Some (VBool false)) j in
  let j := setitem "likes" (Some (VInt 0)) j in
  let j := setitem "third_party" (Some (VBool false)) j in
  let j := setitem "model" (VStr <$> model_name inference) j in
  j.

(** Lines 94-108: the loop over the catalogue, [accum] threaded through. *)
Fixpoint longthink_loop (records : list modelcap) (filter_caps : value)
    (inference : Inference)
    (accum : list (string * list (string * option value)))
  : option (list (string * list (string * option value))) :=
  match records with
  | [] => Some accum
  | rec :: records =>
      match take_this_one false (rec_models rec) filter_caps with
      | None => None
      | Some true =>
          longthink_loop records filter_caps inference
            (setitem (function_name rec) (entry_of rec inference) accum)
      | Some false => longthink_loop records filter_caps inference accum
      end
  end.

(** The endpoint returns [Response(content=...)]: its content, or what it
    raises, the [assert] being executed. *)
Definition _longthink_functions (inference : Inference)
  : login_error + string :=
  match model_dict inference !! "filter_caps" with
  | None =>
      inl (AssertionError ("filter_caps not present in "
                             +:+ model_keys_repr (model_dict inference)))
  | Some filter_caps =>
      let accum := [] in
      match longthink_loop db filter_caps inference accum with
      | None => inl TypeError
      | Some accum =>
          let response := {|
            account := "self-hosted";
            retcode := "OK";
            longthink_functions_today := 1;
            longthink_functions_today_v2 := accum;
            longthink_filters := [];
            chat_v1_style := true
          |} in
          inr (dumps_login response)
      end
  end.

(** A record is wanted when one of its model names is in [filter_caps]. *)
Definition wanted (filter_caps : value) (rec : modelcap) : Prop :=
  ∃ test, test ∈ rec_models rec ∧ py_in test filter_caps = Some true.

End Routers.

Arguments Externals : clear implicits.
Arguments value : clear implicits.
Arguments choice : clear implicits.
Arguments snapshot : clear implicits.
Arguments feed : clear implicits.
Arguments Inference : clear implicits.
Arguments SamplingParams : clear implicits.
Arguments TextSamplingParams : clear implicits.
Arguments DiffSamplingParams : clear implicits.
Arguments ChatSamplingParams : clear implicits.
Arguments call : clear implicits.
Arguments modelcap : clear implicits.
Arguments login_response : clear implicits.
Arguments Catalog : clear implicits.

(** ** Sample data

    A small backend, with [unit] for the values nobody looks into, on
    which the statements below are run. *)

Module Sample.

(** A stand-in for [json.dumps] that shows the choices of a snapshot,
    without quoting. *)
Definition show_choice (ch : choice unit) : string :=
  "{index: " +:+ pretty (index ch)
    +:+ match content ch with
        | Some c => ", content: " +:+ utf8 c
        | None => ""
        end
    +:+ match delta ch with
        | Some d => ", delta: " +:+ utf8 d
        | None => ""
        end
    +:+ "}".

Definition show (response : snapshot unit) : string :=
  match choices response with
  | Some chs =>
      "{choices: [" +:+ String.concat "" (show_choice <$> chs) +:+ "]}"
  | None => "{}"
  end.

Definition controls_of (post : SamplingParams unit)
  : gmap string (value unit) :=
  {[ "max_tokens" := VInt (max_tokens post) ]}.

#[export] Instance externals : Externals unit := {|
  truth := λ _, true;
  dumps := show;
  keys_repr := λ keys, "[" +:+ String.concat ", " keys +:+ "]";
  clamp_text := λ post, controls_of post;
  clamp_diff := λ post, controls_of post;
  clamp_chat := λ post, controls_of post
|}.

(** A backend with model ["m1"] loaded that answers every [infer] with the
    feed [s]. *)
Definition backend (s : feed unit) : Inference unit := {|
  model_name := Some "m1";
  model_dict := {[ "filter_caps" := VOther tt ]};
  chat_is_available := true;
  last_error := None;
  infer := λ _ _, s
|}.

(** Two snapshots of one choice whose text grows from ["Hel"] to
    ["Hello"]. *)
Definition hel : snapshot unit :=
  {| choices := Some [Choice 0 (Some (codepoints "Hel")) None tt];
     extra := tt |}.

Definition hello : snapshot unit :=
  {| choices := Some [Choice 0 (Some (codepoints "Hello")) None tt];
     extra := tt |}.

Definition growing : list (option (snapshot unit)) :=
  [Some hel; None; Some hello].

(** A backend that only ever says "nothing yet", and one that says
    nothing at all. *)
Definition silent : list (option (snapshot unit)) := [None; None].

Definition nothing : list (option (snapshot unit)) := [].

(** The feed of [growing], cancelled during the [asyncio.sleep(0)] that
    follows the second snapshot. *)
Definition cancelled : feed unit :=
  Item (Some hel) None (Item None None
    (Item (Some hello) (Some CancelledError) Stop)).

Definition streaming : gmap string (value unit) :=
  {[ "stream" := VBool true ]}.

Definition single_shot : gmap string (value unit) :=
  {[ "stream" := VBool false ]}.

Definition sampling (model : string) : SamplingParams unit :=
  {| model := model; stop := VOther tt; stream := true; max_tokens := 50;
     controls := tt |}.

(** A diff request on a file of five characters, with its cursor given by
    [cursor0] and [cursor1]. *)
Definition diff (function cursor_file : string) (cursor0 cursor1 : Z)
  : DiffSamplingParams unit :=
  {| diff_base := sampling ""; intent := "fix";
     sources := [("a.py", codepoints "hello")]; cursor_file := cursor_file;
     cursor0 := cursor0; cursor1 := cursor1; function := function;
     max_edits := 4 |}.

Definition text (model : string) : TextSamplingParams unit :=
  {| text_base := sampling model; prompt := "def f("; echo := false |}.

Definition chat (model : string) : ChatSamplingParams unit :=
  {| chat_base := sampling model; messages := VOther tt |}.

(** Texts with a character outside ASCII: a diff request on a file that
    holds the one character U+20AC, and two snapshots of one choice whose
    content is that character and then ["abc"]. *)
Definition diff_euro (cursor0 cursor1 : Z) : DiffSamplingParams unit :=
  {| diff_base := sampling ""; intent := "fix";
     sources := [("a.py", codepoints "€")]; cursor_file := "a.py";
     cursor0 := cursor0; cursor1 := cursor1; function := "edit";
     max_edits := 4 |}.

Definition euro_then_abc : list (option (snapshot unit)) :=
  [Some {| choices := Some [Choice 0 (Some (codepoints "€")) None tt];
           extra := tt |};
   Some {| choices := Some [Choice 0 (Some (codepoints "abc")) None tt];
           extra := tt |}].

(** A feed on which the backend fails after one snapshot. *)
Definition failing : feed unit :=
  Item (Some hel) None (Throw (KeyError "tokens")).

(** Snapshots without ["choices"]. *)
Definition bare : snapshot unit := {| choices := None; extra := tt |}.

Definition plain_feed : feed unit :=
  Item (Some bare) None (Item None None (Item (Some bare) None Stop)).

(** A backend that is still loading and has recorded an error, and one
    whose model cannot chat. *)
Definition loading : Inference unit := {|
  model_name := None;
  model_dict := ∅;
  chat_is_available := false;
  last_error := Some "out of memory";
  infer := λ _ _, Stop
|}.

Definition mute : Inference unit := {|
  model_name := Some "m1";
  model_dict := {[ "filter_caps" := VOther tt ]};
  chat_is_available := false;
  last_error := None;
  infer := λ _ _, Stop
|}.

(** A catalogue of four records, two of which are called ["explain"]; the
    opaque [filter_caps] of [backend] stands for the list
    [["CONTRASTcode", "m1"]]. *)
Definition completion_rec : modelcap unit := {|
  rec_model := inl "CONTRASTcode";
  function_name := "completion";
  descriptor := [("label", Some (VStr "Completion"));
                 ("likes", Some (VInt 7))]
|}.

Definition explain_old : modelcap unit := {|
  rec_model := inr ["gpt"; "m1"];
  function_name := "explain";
  descriptor := [("label", Some (VStr "Explain v1"))]
|}.

Definition summarize_rec : modelcap unit := {|
  rec_model := inl "gpt";
  function_name := "summarize";
  descriptor := [("label", Some (VStr "Summarize"))]
|}.

Definition explain_new : modelcap unit := {|
  rec_model := inl "m1";
  function_name := "explain";
  descriptor := [("label", Some (VStr "Explain v2")); ("model", None)]
|}.

#[export] Instance catalog : Catalog unit := {|
  db := [completion_rec; explain_old; summarize_rec; explain_new];
  py_in := λ test caps,
    match caps with
    | VStr s => Some (bool_decide (is_Some (String.index 0 test s)))
    | VDict d => Some (bool_decide (is_Some (getitem test d)))
    | VInt _ | VBool _ => None
    | VOther _ => Some (bool_decide (test ∈ ["CONTRASTcode"; "m1"]))
    end;
  dumps_login := λ response,
    "{functions: ["
      +:+ String.concat "" (fst <$> longthink_functions_today_v2 response)
      +:+ "]}";
  model_keys_repr := λ d,
    "[" +:+ String.concat ", " (fst <$> map_to_list d) +:+ "]"
|}.

(** What [accum] is after the loop over this catalogue on [backend]. *)
Definition sample_accum (s : feed unit)
  : list (string * list (string * option (value unit))) :=
  [("completion", entry_of completion_rec (backend s));
   ("explain", entry_of explain_new (backend s))].

End Sample.

Section Properties.

Context {Other : Type} `{!Externals Other}.

(** ** The adapters, loop by loop *)

Lemma latest_cons stream d r l :
  latest stream d (r :: l)
  = latest stream (if stream then sse r else dumps r) l.
Proof.
  unfold latest. rewrite last_cons. by destruct (last l).
Qed.

Lemma inference_loop_spec stream d s :
  inference_loop stream d s
  = Gen (if stream then sse <$> taken s else [])
        (match fate s with
         | None => Returns (latest stream d (taken s))
         | Some e => Raises e
         end).
Proof.
  revert d. induction s as [|e|[r|] [e|] rest IH]; intros d; simpl.
  - by destruct stream.
  - by destruct stream.
  - by destruct stream.
  - rewrite latest_cons.
    destruct stream; unfold mbind, gen_bind; simpl; by rewrite IH.
  - apply IH.
  - apply IH.
Qed.

Lemma fate_uninterrupted (l : list (option (snapshot Other))) :
  fate (uninterrupted l) = None.
Proof. induction l as [|[r|] l IH]; simpl; auto. Qed.

Lemma taken_uninterrupted (l : list (option (snapshot Other))) :
  taken (uninterrupted l) = usable l.
Proof.
  induction l as [|[r|] l IH]; simpl; auto.
  unfold usable in *. simpl. by rewrite IH.
Qed.

Lemma usable_last_latest l r :
  last (usable l) = Some r → latest false "" (usable l) = dumps r.
Proof. unfold latest. by intros ->. Qed.

(** The plain adapter on any feed: what reaches the consumer depends on
    how the iteration ends. *)
Lemma inference_streamer_spec request inference v :
  request !! "stream" = Some v →
  inference_streamer request inference
  = let s := infer inference request v in
    let frames := if truthy v then sse <$> taken s else [] in
    match fate s with
    | None =>
        Gen (frames ++ [if truthy v then done_chunk
                        else latest false "" (taken s)]) (Returns tt)
    | Some CancelledError => Gen frames (Returns tt)
    | Some e => Gen frames (Raises e)
    end.
Proof.
  intros Hv. unfold inference_streamer, subscript. rewrite Hv.
  unfold mbind at 1, gen_bind at 1; simpl.
  rewrite inference_loop_spec.
  unfold try_except, mbind, gen_bind; simpl.
  destruct (fate (infer inference request v)) as [[]|]; simpl;
    rewrite ?app_nil_r; try done.
  by destruct (truthy v).
Qed.

Lemma chat_loop_spec seen s :
  chat_loop seen s
  = Gen (sse <$> rewritten seen (taken s))
        (match fate s with None => Returns tt | Some e => Raises e end).
Proof.
  revert seen. induction s as [|e|[r|] [e|] rest IH]; intros seen; simpl;
    try done.
  - by destruct (rewrite_response seen r).
  - destruct (rewrite_response seen r) as [seen' r'].
    unfold mbind, gen_bind; simpl. by rewrite IH.
Qed.

(** The chat adapter on any feed. *)
Lemma chat_delta_streamer_spec request inference :
  chat_delta_streamer request inference
  = let s := infer inference request (VBool true) in
    let frames := sse <$> rewritten ∅ (taken s) in
    match fate s with
    | None => Gen (frames ++ [done_chunk]) (Returns tt)
    | Some CancelledError => Gen frames (Returns tt)
    | Some e => Gen frames (Raises e)
    end.
Proof.
  unfold chat_delta_streamer. rewrite chat_loop_spec.
  unfold try_except, mbind, gen_bind; simpl.
  destruct (fate (infer inference request (VBool true))) as [[]|]; simpl;
    by rewrite ?app_nil_r.
Qed.

(** ** Framed chunks and the terminal marker *)

Lemma append_length (s t : string) :
  String.length (s +:+ t) = (String.length s + String.length t)%nat.
Proof. induction s as [|a s IH]; simpl; [done | by f_equal]. Qed.

Lemma append_inv_tail (s1 s2 t : string) : s1 +:+ t = s2 +:+ t → s1 = s2.
Proof.
  revert s2. induction s1 as [|a s1 IH]; intros [|b s2] H; simpl in H.
  - done.
  - apply (f_equal String.length) in H.
    rewrite !append_length in H. simpl in H. lia.
  - apply (f_equal String.length) in H.
    rewrite !append_length in H. simpl in H. lia.
  - injection H as -> H. f_equal. by apply IH.
Qed.

(** A framed snapshot is the terminal marker only if the serialisation of
    the snapshot is the text [[DONE]], which is not that of a dict. *)
Lemma sse_done r : sse r = done_chunk → dumps r = "[DONE]".
Proof.
  unfold sse, done_chunk. intros H.
  change ("data: [DONE]" +:+ LF +:+ LF)
    with ("data: " +:+ "[DONE]" +:+ LF +:+ LF) in H.
  apply (inj (String.append "data: ")) in H.
  by apply append_inv_tail in H.
Qed.

Lemma done_not_framed (l : list (snapshot Other)) :
  (∀ r, dumps r ≠ "[DONE]") → done_chunk ∉ sse <$> l.
Proof.
  intros Hd [r [Hr _]]%list_elem_of_fmap. symmetry in Hr.
  by apply sse_done, Hd in Hr.
Qed.

Lemma filter_eq_absent (x : string) (l : list string) :
  x ∉ l → filter (λ c, c = x) l = [].
Proof.
  induction l as [|c l IH]; [done|].
  intros [Hc Hl]%not_elem_of_cons.
  rewrite filter_cons_False by congruence. by apply IH.
Qed.

(** ** The plain stream adapter *)

(** C2: with a true streaming flag and a backend sequence that completes
    normally, the plain adapter yields one chunk
    ["data: " + json.dumps(snapshot) + "\n\n"] per snapshot that is not
    [None], in arrival order, then the terminal marker, and returns. *)
Theorem streaming_frames_then_marker request inference v l :
  request !! "stream" = Some v →
  truthy v = true →
  infer inference request v = uninterrupted l →
  inference_streamer request inference
  = Gen (((λ r, "data: " +:+ dumps r +:+ LF +:+ LF) <$> usable l)
           ++ ["data: [DONE]" +:+ LF +:+ LF])
        (Returns tt).
Proof.
  intros Hv Ht Hl. rewrite (inference_streamer_spec _ _ _ Hv); simpl.
  by rewrite Hl, fate_uninterrupted, taken_uninterrupted, Ht.
Qed.

(** C3: with a false streaming flag, a backend sequence that completes
    normally and has a snapshot that is not [None], the plain adapter
    yields exactly one chunk, the bare serialisation of the last such
    snapshot, and returns. *)
Theorem single_shot_last_snapshot request inference v l r :
  request !! "stream" = Some v →
  truthy v = false →
  infer inference request v = uninterrupted l →
  last (usable l) = Some r →
  inference_streamer request inference = Gen [dumps r] (Returns tt).
Proof.
  intros Hv Ht Hl Hr. rewrite (inference_streamer_spec _ _ _ Hv); simpl.
  rewrite Hl, fate_uninterrupted, taken_uninterrupted, Ht; simpl.
  by rewrite (usable_last_latest _ _ Hr).
Qed.

(** C10: with a false streaming flag and a backend sequence that completes
    normally without any snapshot other than [None], the plain adapter
    yields exactly one chunk, the empty string. *)
Theorem single_shot_empty_chunk request inference v l :
  request !! "stream" = Some v →
  truthy v = false →
  infer inference request v = uninterrupted l →
  usable l = [] →
  inference_streamer request inference = Gen [""] (Returns tt).
Proof.
  intros Hv Ht Hl Hn. rewrite (inference_streamer_spec _ _ _ Hv); simpl.
  by rewrite Hl, fate_uninterrupted, taken_uninterrupted, Ht, Hn.
Qed.

(** ** The chat delta adapter *)

(** C8: when the backend sequence completes normally, whatever it
    delivered, the chat adapter returns after yielding the framed
    snapshots and then the terminal marker: the marker is its last chunk,
    and the only chunk equal to it as no snapshot serialises to
    [[DONE]]. *)
Theorem chat_marker_is_last request inference l :
  infer inference request (VBool true) = uninterrupted l →
  let out := chat_delta_streamer request inference in
  ended out = Returns tt
  ∧ chunks out
    = (sse <$> rewritten ∅ (usable l)) ++ ["data: [DONE]" +:+ LF +:+ LF]
  ∧ last (chunks out) = Some done_chunk
  ∧ ((∀ r, dumps r ≠ "[DONE]") →
     filter (λ c, c = done_chunk) (chunks out) = [done_chunk]).
Proof.
  intros Hl. rewrite chat_delta_streamer_spec; simpl.
  rewrite Hl, fate_uninterrupted, taken_uninterrupted; simpl.
  repeat split.
  - apply last_snoc.
  - intros Hd. rewrite filter_app, filter_eq_absent
      by (by apply done_not_framed).
    by rewrite filter_cons_True.
Qed.

(** C9: a cancellation that reaches either adapter at one of its awaits
    ends it quietly: the adapter returns (no exception reaches the
    consumer) having yielded the frames of the snapshots handled so far and
    nothing after them, so no terminal marker; when the backend sequence
    is exhausted instead, the chunk after the loop is yielded. *)
Theorem cancellation_ends_quietly request inference v :
  request !! "stream" = Some v →
  let plain := inference_streamer request inference in
  let chat := chat_delta_streamer request inference in
  let s := infer inference request v in
  let c := infer inference request (VBool true) in
  (fate s = Some CancelledError →
     plain = Gen (if truthy v then sse <$> taken s else []) (Returns tt)
     ∧ ((∀ r, dumps r ≠ "[DONE]") → done_chunk ∉ chunks plain))
  ∧ (fate c = Some CancelledError →
     chat = Gen (sse <$> rewritten ∅ (taken c)) (Returns tt)
     ∧ ((∀ r, dumps r ≠ "[DONE]") → done_chunk ∉ chunks chat))
  ∧ (fate s = None →
     plain = Gen ((if truthy v then sse <$> taken s else [])
                    ++ [if truthy v then done_chunk
                        else latest false "" (taken s)])
                 (Returns tt))
  ∧ (fate c = None →
     chat = Gen ((sse <$> rewritten ∅ (taken c)) ++ [done_chunk])
                (Returns tt)).
Proof.
  intros Hv. simpl.
  rewrite (inference_streamer_spec _ _ _ Hv), chat_delta_streamer_spec.
  simpl. split; [|split; [|split]]; intros Hf; rewrite Hf; simpl; try done.
  - split; [done|]. intros Hd.
    destruct (truthy v); [by apply done_not_framed | apply not_elem_of_nil].
  - split; [done|]. intros Hd. by apply done_not_framed.
Qed.

(** ** Reconstruction of the contents from the deltas *)

Lemma prefix_str_from (p c : text) :
  p `prefix_of` c → p ++ str_from (length p) c = c.
Proof. intros [k ->]. unfold str_from. by rewrite drop_app_length. Qed.

Lemma prefix_of_longer_prefix (a b t : text) :
  a `prefix_of` t → b `prefix_of` t → (length a ≤ length b)%nat →
  a `prefix_of` b.
Proof.
  intros Ha Hb Hlen. destruct (prefix_weak_total a b t Ha Hb) as [|Hba];
    [done|].
  by rewrite (prefix_length_eq b a Hba Hlen).
Qed.

Lemma monotone_chain_from (t : text) (l : list text) (p : text) :
  forallb (λ c, bool_decide (c `prefix_of` t)) l = true →
  nondecreasing (length <$> l) = true →
  p `prefix_of` t →
  (∀ c, head l = Some c → (length p ≤ length c)%nat) →
  chain p l.
Proof.
  revert p. induction l as [|c l IH]; intros p Hall Hnd Hp Hlen; [done|].
  simpl in Hall. apply andb_prop in Hall as [Hc Hall].
  apply bool_decide_eq_true in Hc.
  split.
  - apply (prefix_of_longer_prefix p c t); auto.
  - apply IH; auto.
    + destruct l; [done|]. simpl in Hnd. by apply andb_prop in Hnd as [_ ?].
    + intros c' Hc'. destruct l as [|c'' l]; [done|].
      injection Hc' as ->. simpl in Hnd.
      apply andb_prop in Hnd as [Hle _]. by apply Nat.leb_le in Hle.
Qed.

Lemma monotone_chain (l : list text) :
  monotone_prefixes l = true → chain [] l.
Proof.
  unfold monotone_prefixes. intros [Hall Hnd]%andb_prop.
  apply (monotone_chain_from (final l)); auto using prefix_nil.
  intros c _. simpl. lia.
Qed.

Lemma rewrite_choices_app seen (chs1 chs2 : list (choice Other)) :
  rewrite_choices seen (chs1 ++ chs2)
  = let '(seen1, out1) := rewrite_choices seen chs1 in
    let '(seen2, out2) := rewrite_choices seen1 chs2 in
    (seen2, out1 ++ out2).
Proof.
  revert seen. induction chs1 as [|ch chs1 IH]; intros seen; simpl.
  - by destruct (rewrite_choices seen chs2).
  - rewrite IH.
    destruct (rewrite_choices _ chs1) as [seen1 out1].
    by destruct (rewrite_choices seen1 chs2).
Qed.

(** Handling snapshot after snapshot is handling all their choices in one
    sweep. *)
Lemma rewritten_choices seen (l : list (snapshot Other)) :
  rewritten seen l ≫= choices_of
  = (rewrite_choices seen (l ≫= choices_of)).2.
Proof.
  revert seen. induction l as [|r l IH]; intros seen; [done|].
  simpl. unfold rewrite_response, choices_of at 2.
  destruct (choices r) as [chs|] eqn:Hr; simpl.
  - rewrite rewrite_choices_app.
    destruct (rewrite_choices seen chs) as [seen1 out1]; simpl.
    rewrite IH. by destruct (rewrite_choices seen1 _).
  - unfold choices_of at 1. rewrite Hr; simpl. apply IH.
Qed.

(** The invariant of the sweep, for one index: what [seen] holds for it,
    followed by the deltas still to come, is the last content. *)
Lemma deltas_rebuild idx (chs : list (choice Other)) seen :
  let mine := filter (λ ch, index ch = idx) in
  let was := default [] (seen !! idx) in
  chain was ((λ ch, default [] (content ch)) <$> mine chs) →
  was ++ join ((λ ch, default [] (delta ch))
                 <$> mine (rewrite_choices seen chs).2)
  = default was (last ((λ ch, default [] (content ch)) <$> mine chs)).
Proof.
  simpl. revert seen. induction chs as [|ch chs IH]; intros seen Hc.
  - simpl. by rewrite app_nil_r.
  - simpl.
    destruct (rewrite_choices (<[index ch:=default [] (content ch)]> seen) chs)
      as [seen' out] eqn:Hout.
    specialize (IH (<[index ch:=default [] (content ch)]> seen)).
    rewrite Hout in IH. simpl in IH.
    destruct (decide (index ch = idx)) as [Hi|Hi].
    + rewrite filter_cons_True in Hc by done. simpl in Hc.
      destruct Hc as [Hp Hc].
      rewrite Hi in *. rewrite lookup_insert_eq in IH. simpl in IH.
      rewrite filter_cons_True by done. cbn [snd].
      rewrite (filter_cons (λ ch, index ch = idx)); simpl.
      rewrite decide_True by done. simpl.
      unfold join in *. simpl.
      rewrite app_assoc, (prefix_str_from _ _ Hp).
      etrans; [exact (IH Hc)|].
      rewrite last_cons. by destruct (last _).
    + rewrite filter_cons_False in Hc by done.
      rewrite filter_cons_False by done. cbn [snd].
      rewrite (filter_cons (λ ch, index ch = idx)); simpl.
      rewrite decide_False by done.
      rewrite lookup_insert_ne in IH by done. exact (IH Hc).
Qed.

(** C1: when the contents the backend reports for an index are prefixes of
    its final text that never get shorter, the deltas in the snapshots the
    chat adapter serialises for that index, joined in emission order, are
    the final content of that index. *)
Theorem deltas_rebuild_final_content request inference l idx :
  infer inference request (VBool true) = uninterrupted l →
  monotone_prefixes (contents_for idx (usable l)) = true →
  let sent := rewritten ∅ (usable l) in
  chunks (chat_delta_streamer request inference)
  = (sse <$> sent) ++ [done_chunk]
  ∧ join (deltas_for idx sent) = final (contents_for idx (usable l)).
Proof.
  intros Hl Hm. simpl. split.
  - rewrite chat_delta_streamer_spec; simpl.
    by rewrite Hl, fate_uninterrupted, taken_uninterrupted.
  - apply monotone_chain in Hm.
    unfold deltas_for, contents_for, choices_for, final in *.
    rewrite rewritten_choices.
    pose proof (deltas_rebuild idx (usable l ≫= choices_of) ∅) as Hr.
    simpl in Hr. rewrite lookup_empty in Hr. by apply Hr.
Qed.

(** ** The endpoints *)

Lemma mismatch_not_unknown requested server server' :
  mismatch_detail requested server ≠ unknown_detail server'.
Proof. unfold mismatch_detail, unknown_detail. intros H. by cbv in H. Qed.

Lemma mismatch_not_no_chat requested server server' :
  mismatch_detail requested server ≠ no_chat_detail server'.
Proof. unfold mismatch_detail, no_chat_detail. intros H. by cbv in H. Qed.

Lemma unknown_is_not_mismatch {A} requested server server' :
  @Raises A (UnknownModel server')
  ≠ Raises (ModelMismatch requested server).
Proof.
  unfold UnknownModel, ModelMismatch. intros He.
  assert (mismatch_detail requested server = unknown_detail server')
    as Hd by congruence.
  by apply mismatch_not_unknown in Hd.
Qed.

Lemma loaded_model_Some loading (inference : Inference Other) server :
  model_name inference = Some server →
  loaded_model loading inference = Returns server.
Proof. unfold loaded_model. by intros ->. Qed.

Lemma raise_if_True (P : Prop) `{!Decision P} e :
  P → raise_if P e = Raises e.
Proof. intros HP. unfold raise_if. by rewrite decide_True. Qed.

Lemma raise_if_False (P : Prop) `{!Decision P} e :
  ¬ P → raise_if P e = Returns tt.
Proof. intros HP. unfold raise_if. by rewrite decide_False. Qed.

(** The three endpoints once a model is loaded. *)
Lemma completion_loaded post uuid4 inference server :
  model_name inference = Some server →
  _completion post uuid4 inference
  = if decide (model post ≠ "" ∧ model post ≠ "CONTRASTcode"
               ∧ server ≠ model post)
    then Raises (ModelMismatch (model post) server)
    else Raises (UnknownModel server).
Proof.
  intros Hm. unfold _completion. rewrite (loaded_model_Some _ _ _ Hm).
  simpl. unfold raise_if at 1. by case_decide.
Qed.

Lemma contrast_loaded post post' uuid4 inference server :
  contrast_checks post = Returns post' →
  model_name inference = Some server →
  _contrast post uuid4 inference
  = if decide (model post' ≠ "" ∧ model post' ≠ "CONTRASTcode"
               ∧ server ≠ model post')
    then Raises (ModelMismatch (model post') server)
    else if decide (model_dict inference = ∅)
    then Raises (UnknownModel server)
    else Returns {| body_iterator :=
                      inference_streamer (contrast_request post' uuid4)
                        inference |}.
Proof.
  intros Hc Hm. unfold _contrast. rewrite Hc. simpl.
  rewrite (loaded_model_Some _ _ _ Hm). simpl.
  unfold raise_if. by repeat case_decide.
Qed.

Lemma chat_loaded post uuid4 inference server :
  model_name inference = Some server →
  ∃ request,
    request !! "stream" = Some (VBool true)
    ∧ _chat post uuid4 inference
      = if decide (chat_is_available inference = false)
        then Raises (CapabilityUnavailable server)
        else if decide (model post ≠ "" ∧ server ≠ model post)
        then Raises (ModelMismatch (model post) server)
        else if decide (model_dict inference = ∅)
        then Raises (UnknownModel server)
        else Returns {| body_iterator :=
                          chat_delta_streamer request inference |}.
Proof.
  intros Hm. eexists. split; [|unfold _chat].
  2: { rewrite (loaded_model_Some _ _ _ Hm). simpl.
       unfold raise_if. by repeat case_decide. }
  unfold update. by apply lookup_union_Some_l.
Qed.

(** What the cursor checks leave of [post]: the model name is kept. *)
Lemma contrast_checks_model post post' :
  contrast_checks post = Returns post' → model post' = model post.
Proof.
  unfold contrast_checks. case_decide; simpl.
  - destruct (getitem (cursor_file post) (sources post)); [|done]. simpl.
    unfold raise_if. repeat case_decide; simpl; try done.
    all: intros [= <-]; by case_decide.
  - intros [= <-]. by case_decide.
Qed.

(** C4: unless [function] is ["diff-anywhere"], the diff endpoint rejects
    with status 400, whatever the state of the backend, first a
    [cursor_file] that is not a key of [sources], then a negative cursor,
    then a cursor beyond the length of the cursor file's text; when the
    three checks pass no 400 is raised. *)
Theorem contrast_cursor_checks_in_order post uuid4 inference :
  function post ≠ "diff-anywhere" →
  let result := _contrast post uuid4 inference in
  (getitem (cursor_file post) (sources post) = None →
     result = Raises (HTTPException 400 (cursor_file_detail post)))
  ∧ (∀ filetext,
       getitem (cursor_file post) (sources post) = Some filetext →
       (cursor0 post < 0 ∨ cursor1 post < 0 →
          result = Raises (HTTPException 400 (negative_detail post)))
       ∧ (0 ≤ cursor0 post → 0 ≤ cursor1 post →
          cursor0 post > len filetext ∨ cursor1 post > len filetext →
          result = Raises (HTTPException 400 (beyond_detail post filetext)))
       ∧ (0 ≤ cursor0 post ≤ len filetext →
          0 ≤ cursor1 post ≤ len filetext →
          ∀ detail, result ≠ Raises (HTTPException 400 detail))).
Proof.
  intros Hf. simpl. split.
  - intros Hs. unfold _contrast, contrast_checks.
    rewrite decide_True by done. by rewrite Hs.
  - intros filetext Hs. split; [|split].
    + intros Hneg. unfold _contrast, contrast_checks.
      rewrite decide_True by done. rewrite Hs. simpl.
      by rewrite (raise_if_True _ _ Hneg).
    + intros H0 H1 Hbig. unfold _contrast, contrast_checks.
      rewrite decide_True by done. rewrite Hs. simpl.
      rewrite (raise_if_False (cursor0 post < 0 ∨ cursor1 post < 0)) by lia.
      simpl. by rewrite (raise_if_True _ _ Hbig).
    + intros H0 H1 detail.
      assert (∃ post', contrast_checks post = Returns post') as [post' Hc].
      { unfold contrast_checks. rewrite decide_True by done. rewrite Hs.
        simpl. rewrite !raise_if_False by lia. simpl. eauto. }
      destruct (model_name inference) as [server|] eqn:Hm.
      * rewrite (contrast_loaded _ _ _ _ _ Hc Hm).
        unfold ModelMismatch, UnknownModel. by repeat case_decide.
      * unfold _contrast, loaded_model. rewrite Hc, Hm. simpl. congruence.
Qed.

(** C7: when [function] is ["diff-anywhere"], the cursor checks are
    skipped: normalisation succeeds whatever the cursor fields are, the
    canonical request carries [cursor0 = -1], [cursor1 = -1] and
    [cursor_file = ""], the endpoint raises no 400 and an answer it returns
    streams that request. *)
Theorem diff_anywhere_forgets_cursor post uuid4 inference :
  function post = "diff-anywhere" →
  ∃ post',
    contrast_checks post = Returns post'
    ∧ (cursor0 post' = -1 ∧ cursor1 post' = -1 ∧ cursor_file post' = "")
    ∧ (let request := contrast_request post' uuid4 in
       request !! "cursor0" = Some (VInt (-1))
       ∧ request !! "cursor1" = Some (VInt (-1))
       ∧ request !! "cursor_file" = Some (VStr "")
       ∧ ∀ answer, _contrast post uuid4 inference = Returns answer →
           body_iterator answer = inference_streamer request inference)
    ∧ ∀ detail,
        _contrast post uuid4 inference ≠ Raises (HTTPException 400 detail).
Proof.
  intros Hf. exists (forget_cursor post).
  assert (contrast_checks post = Returns (forget_cursor post)) as Hc.
  { unfold contrast_checks.
    rewrite decide_False by (intros Hn; by apply Hn).
    simpl. rewrite decide_False; [done|]. by rewrite Hf. }
  split; [done|]. split; [done|]. split.
  - simpl. unfold contrast_request, update.
    repeat split; try (by apply lookup_union_Some_l).
    intros answer. destruct (model_name inference) as [server|] eqn:Hm.
    + rewrite (contrast_loaded _ _ _ _ _ Hc Hm).
      repeat case_decide; try done. by intros [= <-].
    + unfold _contrast, loaded_model. by rewrite Hc, Hm.
  - intros detail. destruct (model_name inference) as [server|] eqn:Hm.
    + rewrite (contrast_loaded _ _ _ _ _ Hc Hm).
      unfold ModelMismatch, UnknownModel. by repeat case_decide.
    + unfold _contrast, loaded_model. rewrite Hc, Hm. simpl. congruence.
Qed.

(** C6, as the code has it: with a model loaded, the completion endpoint,
    and the diff endpoint once its cursor checks have passed, reject with
    [ModelMismatch] exactly when the requested name is not empty, not
    ["CONTRASTcode"] and not the loaded model's; the chat endpoint, once
    chat is available, rejects with [ModelMismatch] exactly when the
    requested name is not empty and not the loaded model's, so it has no
    wildcard.  An empty name is never rejected this way. *)
Theorem model_mismatch_rule c uuid4 inference server :
  model_name inference = Some server →
  let rejected :=
    serve c uuid4 inference
    = Raises (ModelMismatch (requested_model c) server) in
  match c with
  | Completion post =>
      rejected ↔ mismatch_expected (model post) server
  | Contrast post =>
      (∃ post', contrast_checks post = Returns post') →
      rejected ↔ mismatch_expected (model post) server
  | Chat post =>
      chat_is_available inference = true →
      rejected ↔ model post ≠ "" ∧ model post ≠ server
  end.
Proof.
  intros Hm. unfold mismatch_expected.
  destruct c as [post|post|post]; simpl.
  - rewrite (completion_loaded _ _ _ _ Hm). case_decide as Hd.
    + intuition congruence.
    + split; [|intuition congruence].
      intros He. by apply unknown_is_not_mismatch in He.
  - intros [post' Hc]. rewrite (contrast_loaded _ _ _ _ _ Hc Hm).
    rewrite (contrast_checks_model _ _ Hc).
    case_decide as Hd; [intuition congruence|].
    split; [|intuition congruence].
    case_decide; [|done].
    intros He. by apply unknown_is_not_mismatch in He.
  - intros Hchat. destruct (chat_loaded post uuid4 _ _ Hm) as (req & _ & ->).
    rewrite decide_False by (by rewrite Hchat).
    case_decide as Hd; [intuition congruence|].
    split; [|intuition congruence].
    case_decide; [|done].
    intros He. by apply unknown_is_not_mismatch in He.
Qed.

(** The unknown-model check of the diff endpoint, when it is reached: the
    call is rejected exactly when [model_dict] is empty and goes on to the
    plain adapter otherwise. *)
Lemma contrast_unknown_model post post' uuid4 inference server :
  contrast_checks post = Returns post' →
  model_name inference = Some server →
  ¬ mismatch_expected (model post) server →
  (_contrast post uuid4 inference = Raises (UnknownModel server)
   ↔ model_dict inference = ∅)
  ∧ (model_dict inference ≠ ∅ →
     _contrast post uuid4 inference
     = Returns {| body_iterator :=
                    inference_streamer (contrast_request post' uuid4)
                      inference |}).
Proof.
  intros Hc Hm Hn. rewrite (contrast_loaded _ _ _ _ _ Hc Hm).
  rewrite (contrast_checks_model _ _ Hc).
  rewrite decide_False
    by (unfold mismatch_expected in Hn; intuition congruence).
  case_decide; intuition congruence.
Qed.

(** The same check of the chat endpoint. *)
Lemma chat_unknown_model (post : ChatSamplingParams Other) uuid4 inference
    server :
  model_name inference = Some server →
  chat_is_available inference = true →
  ¬ (model post ≠ "" ∧ model post ≠ server) →
  (_chat post uuid4 inference = Raises (UnknownModel server)
   ↔ model_dict inference = ∅)
  ∧ (model_dict inference ≠ ∅ →
     ∃ answer, _chat post uuid4 inference = Returns answer).
Proof.
  intros Hm Hchat Hn.
  destruct (chat_loaded post uuid4 _ _ Hm) as (req & _ & ->).
  rewrite decide_False by (by rewrite Hchat).
  rewrite decide_False by intuition congruence.
  case_decide as He.
  - split; [by split|]. intros Hne. by destruct Hne.
  - split; [split; [done | intros; contradiction] | eauto].
Qed.

(** The completion endpoint compares [model_dict] with [0] instead: with a
    model loaded and no mismatch it rejects with [UnknownModel] whatever
    [model_dict] holds, and hence never answers. *)
Lemma completion_unknown_model (post : TextSamplingParams Other) uuid4
    inference server :
  model_name inference = Some server →
  ¬ mismatch_expected (model post) server →
  _completion post uuid4 inference = Raises (UnknownModel server).
Proof.
  intros Hm Hn. rewrite (completion_loaded _ _ _ _ Hm).
  rewrite decide_False; [done|].
  unfold mismatch_expected in Hn. intuition congruence.
Qed.

Lemma completion_never_answers post uuid4 inference answer :
  _completion post uuid4 inference ≠ Returns answer.
Proof.
  destruct (model_name inference) as [server|] eqn:Hm.
  - rewrite (completion_loaded _ _ _ _ Hm). by case_decide.
  - unfold _completion, loaded_model. by rewrite Hm.
Qed.

(** ** More on the adapters *)

Lemma chat_chunks request inference :
  chunks (chat_delta_streamer request inference)
  = (sse <$> rewritten ∅ (taken (infer inference request (VBool true))))
      ++ match fate (infer inference request (VBool true)) with
         | None => [done_chunk]
         | Some _ => []
         end.
Proof.
  rewrite chat_delta_streamer_spec; simpl.
  destruct (fate _) as [[]|]; simpl; by rewrite ?app_nil_r.
Qed.

(** An exception of the backend other than a cancellation is not caught:
    it leaves either adapter, after the frames of the snapshots handled
    so far and without a last chunk. *)
Theorem backend_error_propagates request inference v e :
  request !! "stream" = Some v →
  e ≠ CancelledError →
  (fate (infer inference request v) = Some e →
   inference_streamer request inference
   = Gen (if truthy v then sse <$> taken (infer inference request v)
          else [])
         (Raises e))
  ∧ (fate (infer inference request (VBool true)) = Some e →
     chat_delta_streamer request inference
     = Gen (sse <$> rewritten ∅
                      (taken (infer inference request (VBool true))))
           (Raises e)).
Proof.
  intros Hv He. split; intros Hf.
  - rewrite (inference_streamer_spec _ _ _ Hv); simpl. rewrite Hf.
    by destruct e.
  - rewrite chat_delta_streamer_spec; simpl. rewrite Hf. by destruct e.
Qed.

(** A request without the key ["stream"] makes the plain adapter raise
    [KeyError] before it yields anything, whatever the backend would
    deliver. *)
Theorem plain_adapter_needs_stream_key request inference :
  request !! "stream" = None →
  inference_streamer request inference = Gen [] (Raises (KeyError "stream")).
Proof.
  intros Hv. unfold inference_streamer, subscript. by rewrite Hv.
Qed.

Lemma rewrite_choices_stripped seen (chs : list (choice Other)) :
  Forall2 stripped chs (rewrite_choices seen chs).2.
Proof.
  revert seen. induction chs as [|ch chs IH]; intros seen; simpl;
    [constructor|].
  specialize (IH (<[index ch:=default [] (content ch)]> seen)).
  destruct (rewrite_choices _ chs) as [seen' out]. simpl in *.
  constructor; [|done]. unfold stripped; simpl. eauto.
Qed.

Lemma rewritten_relayed seen (l : list (snapshot Other)) :
  Forall2 relayed l (rewritten seen l).
Proof.
  revert seen. induction l as [|r l IH]; intros seen; simpl; [constructor|].
  unfold rewrite_response.
  destruct (choices r) as [chs|] eqn:Hr.
  - pose proof (rewrite_choices_stripped seen chs) as Hs.
    destruct (rewrite_choices seen chs) as [seen' out]. simpl in Hs.
    constructor; [|apply IH]. unfold relayed; simpl. by rewrite Hr.
  - constructor; [|apply IH]. unfold relayed. by rewrite Hr.
Qed.

(** The chat adapter never puts a cumulative content on the wire: the
    snapshots it serialises are those it handled, one for one, where each
    choice keeps its place, its index and its other keys, has lost
    ["content"] and carries a ["delta"]; a snapshot without ["choices"]
    goes out as it came. *)
Theorem chat_relays_stripped_choices request inference :
  let s := infer inference request (VBool true) in
  let sent := rewritten ∅ (taken s) in
  chunks (chat_delta_streamer request inference)
  = (sse <$> sent)
      ++ match fate s with None => [done_chunk] | Some _ => [] end
  ∧ Forall2 relayed (taken s) sent
  ∧ ∀ i r,
      taken s !! i = Some r → choices r = None → sent !! i = Some r.
Proof.
  simpl. split; [apply chat_chunks|]. split; [apply rewritten_relayed|].
  generalize (∅ : gmap Z text).
  induction (taken (infer inference request (VBool true))) as [|r' l IH];
    intros seen i r Hi Hr; [done|].
  simpl. destruct i as [|i]; simpl in Hi.
  - injection Hi as ->. unfold rewrite_response. by rewrite Hr.
  - destruct (rewrite_response seen r') as [seen' r'']. simpl.
    by apply IH.
Qed.

Lemma rewrite_choices_deltas idx (chs : list (choice Other)) seen :
  let mine := filter (λ ch, index ch = idx) in
  (λ ch, default [] (delta ch)) <$> mine (rewrite_choices seen chs).2
  = deltas_of (default [] (seen !! idx))
      ((λ ch, default [] (content ch)) <$> mine chs).
Proof.
  simpl. revert seen. induction chs as [|ch chs IH]; intros seen; [done|].
  simpl.
  specialize (IH (<[index ch:=default [] (content ch)]> seen)).
  destruct (rewrite_choices _ chs) as [seen' out]. simpl in IH.
  cbn [snd]. rewrite (filter_cons (λ ch, index ch = idx)); simpl.
  destruct (decide (index ch = idx)) as [Hi|Hi].
  - rewrite filter_cons_True by done. simpl.
    rewrite Hi in *. rewrite lookup_insert_eq in IH.
    f_equal. exact IH.
  - rewrite filter_cons_False by done.
    rewrite lookup_insert_ne in IH by done. exact IH.
Qed.

(** The deltas of an index depend on the contents of that index alone,
    monotone or not: each is the content from the length of the content
    before it for the same index, the first one the whole content;
    choices of other indices in between change nothing. *)
Theorem deltas_depend_on_own_contents request inference idx :
  let s := infer inference request (VBool true) in
  let sent := rewritten ∅ (taken s) in
  chunks (chat_delta_streamer request inference)
  = (sse <$> sent)
      ++ match fate s with None => [done_chunk] | Some _ => [] end
  ∧ deltas_for idx sent = deltas_of [] (contents_for idx (taken s)).
Proof.
  simpl. split; [apply chat_chunks|].
  unfold deltas_for, contents_for, choices_for.
  rewrite rewritten_choices.
  pose proof (rewrite_choices_deltas idx
                (taken (infer inference request (VBool true))
                   ≫= choices_of) ∅) as Hd.
  simpl in Hd. by rewrite lookup_empty in Hd.
Qed.

Lemma str_from_length (n : nat) (s : text) :
  length (str_from n s) = (length s - n)%nat.
Proof. apply length_drop. Qed.

Lemma str_from_tail (n : nat) (s : text) :
  ∃ head, s = head ++ str_from n s.
Proof. exists (take n s). unfold str_from. by rewrite take_drop. Qed.

(** One choice through the adapter: the delta is a tail of the content,
    shorter than it by the length of what was seen for the index, hence
    empty when the content is not longer than what was seen, whatever
    its text; [seen] then holds the content for that index and is
    unchanged for the others. *)
Theorem delta_is_a_tail seen (ch : choice Other) :
  let was := default [] (seen !! index ch) in
  let now := default [] (content ch) in
  ∃ d, delta (rewrite_choice seen ch).2 = Some d
    ∧ length d = (length now - length was)%nat
    ∧ (∃ head, now = head ++ d)
    ∧ (rewrite_choice seen ch).1 !! index ch = Some now
    ∧ ∀ i, i ≠ index ch → (rewrite_choice seen ch).1 !! i = seen !! i.
Proof.
  simpl. eexists. split; [done|].
  split; [apply str_from_length|]. split; [apply str_from_tail|].
  split; [apply lookup_insert_eq|].
  intros i Hi. by apply lookup_insert_ne.
Qed.

Lemma rewritten_without_choices seen (l : list (snapshot Other)) :
  (∀ r, r ∈ l → choices r = None) → rewritten seen l = l.
Proof.
  induction l as [|r l IH]; intros Hl; [done|].
  simpl. unfold rewrite_response.
  rewrite (Hl r) by apply list_elem_of_here.
  f_equal. apply IH. intros r' Hr'. apply Hl. by apply list_elem_of_further.
Qed.

(** On a backend whose snapshots carry no ["choices"] the chat adapter
    does what the plain adapter does for a streaming request: the same
    chunks and the same end, cancelled or not. *)
Theorem chat_without_choices_is_plain request inference :
  request !! "stream" = Some (VBool true) →
  (∀ r, r ∈ taken (infer inference request (VBool true)) →
        choices r = None) →
  chat_delta_streamer request inference
  = inference_streamer request inference.
Proof.
  intros Hv Hn.
  rewrite (inference_streamer_spec _ _ _ Hv), chat_delta_streamer_spec.
  simpl. by rewrite (rewritten_without_choices _ _ Hn).
Qed.

(** ** More on the endpoints *)

(** [post] after line 195, when the cursor checks let it through. *)
Lemma contrast_checks_Returns post post' :
  contrast_checks post = Returns post'
  ↔ (function post = "diff-anywhere" ∧ post' = forget_cursor post)
    ∨ (function post ≠ "diff-anywhere" ∧ cursor_in_file post
       ∧ post' = if decide (function post = "highlight")
                 then one_token post else post).
Proof.
  unfold contrast_checks, cursor_in_file.
  destruct (decide (function post ≠ "diff-anywhere")) as [Hf|Hf].
  - destruct (getitem (cursor_file post) (sources post)) as [filetext|] eqn:Hs;
      simpl.
    + destruct (decide (cursor0 post < 0 ∨ cursor1 post < 0)) as [Hn|Hn].
      { rewrite (raise_if_True _ _ Hn). simpl. split; [done|].
        intros [[? _]|(_ & (? & [= <-] & ? & ?) & _)]; [done|lia]. }
      rewrite (raise_if_False _ _ Hn). simpl.
      destruct (decide (cursor0 post > len filetext
                        ∨ cursor1 post > len filetext)) as [Hb|Hb].
      { rewrite (raise_if_True _ _ Hb). simpl. split; [done|].
        intros [[? _]|(_ & (? & [= <-] & ? & ?) & _)]; [done|lia]. }
      rewrite (raise_if_False _ _ Hb). simpl. split.
      * intros [= <-]. right. split; [done|].
        split; [exists filetext; split; [done|lia]|done].
      * intros [[? _]|(_ & _ & ->)]; done.
    + split; [done|]. intros [[? _]|(_ & (? & ? & _) & _)]; done.
  - assert (function post = "diff-anywhere") as Hf'
      by (destruct (decide (function post = "diff-anywhere")); tauto).
    simpl. rewrite decide_False by (by rewrite Hf').
    split.
    + intros [= <-]. by left.
    + intros [[_ ->]|[? _]]; done.
Qed.

Lemma contrast_checks_Raises post e :
  contrast_checks post = Raises e → ∃ detail, e = HTTPException 400 detail.
Proof.
  unfold contrast_checks. case_decide; simpl.
  - destruct (getitem (cursor_file post) (sources post)); simpl.
    + unfold raise_if. repeat case_decide; simpl; intros [=]; eauto.
    + intros [= <-]. eauto.
  - done.
Qed.

(** While no model is loaded every endpoint answers 401 with the last
    error of the backend, or with its own wording of "loading" when there
    is none: the completion endpoint always, the chat endpoint always, the
    diff endpoint once the cursor checks have passed. *)
Theorem no_model_loaded c uuid4 inference :
  model_name inference = None →
  let told loading :=
    Raises (HTTPException 401 (default loading (last_error inference))) in
  match c with
  | Completion post => serve c uuid4 inference = told "model is loading"
  | Contrast post =>
      function post = "diff-anywhere" ∨ cursor_in_file post →
      serve c uuid4 inference = told "model loading"
  | Chat post => serve c uuid4 inference = told "model loading"
  end.
Proof.
  intros Hm. destruct c as [post|post|post]; simpl.
  - unfold _completion, loaded_model. rewrite Hm. simpl.
    by destruct (last_error inference).
  - intros Hok.
    assert (∃ post', contrast_checks post = Returns post') as [post' Hc].
    { destruct (decide (function post = "diff-anywhere")) as [Hf|Hf].
      - eexists. apply contrast_checks_Returns. by left.
      - eexists. apply contrast_checks_Returns. right.
        repeat split; [done|by destruct Hok]. }
    unfold _contrast, loaded_model. rewrite Hc, Hm. simpl.
    by destruct (last_error inference).
  - unfold _chat, loaded_model. rewrite Hm. simpl.
    by destruct (last_error inference).
Qed.

(** Normalisation of a diff request forces [max_tokens] to 1 for the
    function ["highlight"] and to nothing else for any other function. *)
Theorem highlight_takes_one_token post post' :
  contrast_checks post = Returns post' →
  max_tokens post'
  = if decide (function post = "highlight") then 1 else max_tokens post.
Proof.
  intros [[Hf ->]|(Hf & _ & ->)]%contrast_checks_Returns.
  - rewrite decide_False by (by rewrite Hf). done.
  - by case_decide.
Qed.

(** Normalisation of a diff request keeps the model name, the stop
    sequences, the streaming flag, the further controls, the intent, the
    sources, the function and the maximum of edits, and also the cursor
    unless the function is ["diff-anywhere"]. *)
Theorem contrast_checks_keep_the_rest post post' :
  contrast_checks post = Returns post' →
  model post' = model post ∧ stop post' = stop post
  ∧ stream post' = stream post ∧ controls post' = controls post
  ∧ intent post' = intent post ∧ sources post' = sources post
  ∧ function post' = function post ∧ max_edits post' = max_edits post
  ∧ (function post ≠ "diff-anywhere" →
     cursor_file post' = cursor_file post
     ∧ cursor0 post' = cursor0 post ∧ cursor1 post' = cursor1 post).
Proof.
  intros [[Hf ->]|(Hf & _ & ->)]%contrast_checks_Returns.
  - repeat split; done.
  - case_decide; repeat split; done.
Qed.

(** The cursor checks pass exactly when the function is ["diff-anywhere"]
    or the cursor file is among the sources and both cursors lie between
    0 and the length of its text, both ends included; nothing orders
    [cursor0] and [cursor1]. *)
Theorem cursor_checks_pass_iff post :
  (∃ post', contrast_checks post = Returns post')
  ↔ function post = "diff-anywhere"
    ∨ ∃ filetext, getitem (cursor_file post) (sources post) = Some filetext
        ∧ 0 ≤ cursor0 post ≤ len filetext
        ∧ 0 ≤ cursor1 post ≤ len filetext.
Proof.
  split.
  - intros [post' [[Hf _]|(_ & Hok & _)]%contrast_checks_Returns];
      [by left | by right].
  - intros Hok.
    destruct (decide (function post = "diff-anywhere")) as [Hf|Hf].
    + eexists. apply contrast_checks_Returns. by left.
    + eexists. apply contrast_checks_Returns. right.
      repeat split; [done|by destruct Hok].
Qed.

(** The diff endpoint answers exactly when the cursor checks pass, a
    model is loaded, the requested name is empty, ["CONTRASTcode"] or the
    loaded model's, and [model_dict] is not empty; its answer streams the
    canonical request of the normalised [post] through the plain
    adapter. *)
Theorem contrast_answers_iff post uuid4 inference :
  ((∃ answer, _contrast post uuid4 inference = Returns answer)
   ↔ (function post = "diff-anywhere" ∨ cursor_in_file post)
     ∧ (∃ server, model_name inference = Some server
          ∧ (model post = "" ∨ model post = "CONTRASTcode"
             ∨ model post = server))
     ∧ model_dict inference ≠ ∅)
  ∧ ∀ post' answer,
      contrast_checks post = Returns post' →
      _contrast post uuid4 inference = Returns answer →
      body_iterator answer
      = inference_streamer (contrast_request post' uuid4) inference.
Proof.
  split.
  - destruct (contrast_checks post) as [post'|e] eqn:Hc.
    + pose proof (contrast_checks_model _ _ Hc) as Hmodel.
      assert (function post = "diff-anywhere" ∨ cursor_in_file post) as Hok.
      { apply contrast_checks_Returns in Hc as [[? _]|(_ & ? & _)]; eauto. }
      destruct (model_name inference) as [server|] eqn:Hm.
      * rewrite (contrast_loaded _ _ _ _ _ Hc Hm), Hmodel.
        destruct (decide (model post ≠ "" ∧ model post ≠ "CONTRASTcode"
                          ∧ server ≠ model post)) as [Hd|Hd].
        { split; [by intros [? [=]]|].
          intros (_ & (? & [= <-] & Hmod) & _). intuition congruence. }
        destruct (decide (model_dict inference = ∅)) as [He|He].
        { split; [by intros [? [=]]|]. by intros (_ & _ & ?). }
        split; [|eauto]. intros _. split; [done|]. split; [|done].
        exists server. split; [done|].
        destruct (decide (model post = "")); [tauto|].
        destruct (decide (model post = "CONTRASTcode")); [tauto|].
        destruct (decide (server = model post)); [by right; right|].
        exfalso. by apply Hd.
      * unfold _contrast, loaded_model. rewrite Hc, Hm. simpl.
        split; [by intros [? [=]]|]. by intros (_ & (? & [=] & _) & _).
    + unfold _contrast. rewrite Hc. simpl.
      split; [by intros [? [=]]|]. intros (Hok & _).
      assert (∃ post', contrast_checks post = Returns post') as [? Hc'].
      { destruct (decide (function post = "diff-anywhere")) as [Hf|Hf].
        - eexists. apply contrast_checks_Returns. by left.
        - eexists. apply contrast_checks_Returns. right.
          repeat split; [done|by destruct Hok]. }
      congruence.
  - intros post' answer Hc.
    destruct (model_name inference) as [server|] eqn:Hm.
    + rewrite (contrast_loaded _ _ _ _ _ Hc Hm).
      repeat case_decide; try done. by intros [= <-].
    + unfold _contrast, loaded_model. by rewrite Hc, Hm.
Qed.

Lemma chat_loaded_request (post : ChatSamplingParams Other) uuid4 inference
    server :
  model_name inference = Some server →
  _chat post uuid4 inference
  = if decide (chat_is_available inference = false)
    then Raises (CapabilityUnavailable server)
    else if decide (model post ≠ "" ∧ server ≠ model post)
    then Raises (ModelMismatch (model post) server)
    else if decide (model_dict inference = ∅)
    then Raises (UnknownModel server)
    else Returns {| body_iterator :=
                      chat_delta_streamer (chat_request post uuid4)
                        inference |}.
Proof.
  intros Hm. unfold _chat, chat_request.
  rewrite (loaded_model_Some _ _ _ Hm). simpl.
  unfold raise_if. by repeat case_decide.
Qed.

(** The chat endpoint answers exactly when a model is loaded, chat is
    available for it, the requested name is empty or the loaded model's,
    and [model_dict] is not empty; its answer streams the canonical chat
    request through the chat adapter. *)
Theorem chat_answers_iff (post : ChatSamplingParams Other) uuid4 inference :
  ((∃ answer, _chat post uuid4 inference = Returns answer)
   ↔ (∃ server, model_name inference = Some server
        ∧ (model post = "" ∨ model post = server))
     ∧ chat_is_available inference = true
     ∧ model_dict inference ≠ ∅)
  ∧ ∀ answer,
      _chat post uuid4 inference = Returns answer →
      body_iterator answer
      = chat_delta_streamer (chat_request post uuid4) inference.
Proof.
  destruct (model_name inference) as [server|] eqn:Hm.
  - rewrite (chat_loaded_request _ _ _ _ Hm).
    destruct (decide (chat_is_available inference = false)) as [Hc|Hc].
    { split; [|done]. split; [by intros [? [=]]|].
      intros (_ & ? & _). congruence. }
    destruct (decide (model post ≠ "" ∧ server ≠ model post)) as [Hd|Hd].
    { split; [|done]. split; [by intros [? [=]]|].
      intros ((? & [= <-] & ?) & _). intuition congruence. }
    destruct (decide (model_dict inference = ∅)) as [He|He].
    { split; [|done]. split; [by intros [? [=]]|]. by intros (_ & _ & ?). }
    split; [|by intros ? [= <-]].
    split; [|eauto]. intros _. split; [|split; [|done]].
    + exists server. split; [done|].
      destruct (decide (model post = "")); [tauto|].
      destruct (decide (server = model post)); [by right|].
      exfalso. by apply Hd.
    + by destruct (chat_is_available inference).
  - unfold _chat, loaded_model. rewrite Hm. simpl.
    split; [|done]. split; [by intros [? [=]]|].
    by intros ((? & [=] & _) & _).
Qed.

(** With a model loaded, the chat endpoint answers 401 "chat is not
    available for ... model" exactly when the backend says chat is not
    available, whatever the requested name and [model_dict] are: this
    check comes first. *)
Theorem chat_unavailable_iff (post : ChatSamplingParams Other) uuid4
    inference server :
  model_name inference = Some server →
  _chat post uuid4 inference
  = Raises (HTTPException 401
              ("chat is not available for " +:+ server +:+ " model"))
  ↔ chat_is_available inference = false.
Proof.
  intros Hm. rewrite (chat_loaded_request _ _ _ _ Hm).
  change ("chat is not available for " +:+ server +:+ " model")
    with (no_chat_detail server).
  unfold CapabilityUnavailable, ModelMismatch, UnknownModel.
  repeat case_decide; split; try done.
  all: intros He; exfalso; revert He; unfold no_chat_detail,
    mismatch_detail, unknown_detail; intros [=].
Qed.

Lemma update_lookup_set (request : gmap string (value Other)) entries k v :
  (list_to_map entries : gmap string (value Other)) !! k = Some v →
  update request entries !! k = Some v.
Proof. intros Hk. unfold update. by apply lookup_union_Some_l. Qed.

Lemma update_lookup_kept (request : gmap string (value Other)) entries k :
  k ∉ entries.*1 → update request entries !! k = request !! k.
Proof.
  intros Hk. unfold update. apply lookup_union_r.
  by apply not_elem_of_list_to_map_1.
Qed.

(** The canonical diff request is what [clamp] returns with twelve keys
    set on top of it: these carry the fields of [post] whatever [clamp]
    returned under them, and every other key of [clamp] is passed on. *)
Theorem contrast_request_fields post uuid4 :
  let request := contrast_request post uuid4 in
  request !! "id" = Some (VStr uuid4)
  ∧ request !! "object" = Some (VStr "diff_completion_req")
  ∧ request !! "model" = Some (VStr (model post))
  ∧ request !! "intent" = Some (VStr (intent post))
  ∧ request !! "sources" = Some (VDict (sources post))
  ∧ request !! "cursor_file" = Some (VStr (cursor_file post))
  ∧ request !! "cursor0" = Some (VInt (cursor0 post))
  ∧ request !! "cursor1" = Some (VInt (cursor1 post))
  ∧ request !! "function" = Some (VStr (function post))
  ∧ request !! "max_edits" = Some (VInt (max_edits post))
  ∧ request !! "stop_tokens" = Some (stop post)
  ∧ request !! "stream" = Some (VBool (stream post))
  ∧ ∀ k, k ∉ contrast_keys → request !! k = clamp_diff post !! k.
Proof.
  simpl. unfold contrast_request.
  repeat (split; [by apply update_lookup_set|]).
  intros k Hk. by apply update_lookup_kept.
Qed.

(** The canonical chat request carries the model name the caller gave,
    not the backend's, and always asks for streaming, whatever [post] and
    [clamp] say; every key of [clamp] other than the six the endpoint sets
    is passed on. *)
Theorem chat_request_fields (post : ChatSamplingParams Other) uuid4 :
  let request := chat_request post uuid4 in
  request !! "id" = Some (VStr uuid4)
  ∧ request !! "object" = Some (VStr "chat_completion_req")
  ∧ request !! "model" = Some (VStr (model post))
  ∧ request !! "messages" = Some (messages post)
  ∧ request !! "stop_tokens" = Some (stop post)
  ∧ request !! "stream" = Some (VBool true)
  ∧ ∀ k, k ∉ chat_keys → request !! k = clamp_chat post !! k.
Proof.
  simpl. unfold chat_request.
  repeat (split; [by apply update_lookup_set|]).
  intros k Hk. by apply update_lookup_kept.
Qed.

(** Whatever an endpoint raises is an [HTTPException] with status 401, or
    with status 400 on the diff endpoint: never another status, never
    another exception. *)
Theorem endpoints_raise_400_or_401 c uuid4 inference e :
  serve c uuid4 inference = Raises e →
  ∃ detail,
    e = HTTPException 401 detail
    ∨ (e = HTTPException 400 detail ∧ ∃ post, c = Contrast post).
Proof.
  destruct c as [post|post|post]; simpl.
  - destruct (model_name inference) as [server|] eqn:Hm.
    + rewrite (completion_loaded _ _ _ _ Hm).
      unfold ModelMismatch, UnknownModel.
      case_decide; intros [= <-]; eauto.
    + unfold _completion, loaded_model. rewrite Hm. simpl.
      intros [= <-]. eauto.
  - destruct (contrast_checks post) as [post'|e'] eqn:Hc.
    + destruct (model_name inference) as [server|] eqn:Hm.
      * rewrite (contrast_loaded _ _ _ _ _ Hc Hm).
        unfold ModelMismatch, UnknownModel.
        repeat case_decide; intros [= <-]; eauto.
      * unfold _contrast, loaded_model. rewrite Hc, Hm. simpl.
        intros [= <-]. eauto.
    + unfold _contrast. rewrite Hc. simpl. intros [= <-].
      destruct (contrast_checks_Raises _ _ Hc) as [detail ->]. eauto.
  - destruct (model_name inference) as [server|] eqn:Hm.
    + rewrite (chat_loaded_request _ _ _ _ Hm).
      unfold CapabilityUnavailable, ModelMismatch, UnknownModel.
      repeat case_decide; intros [= <-]; eauto.
    + unfold _chat, loaded_model. rewrite Hm. simpl.
      intros [= <-]. eauto.
Qed.

(** ** The authorization header *)

Lemma str_split_not_nil sep s : str_split sep s ≠ [].
Proof.
  destruct s as [|c s]; simpl; [done|].
  case_decide; [done|]. by destruct (str_split sep s).
Qed.

(** The first piece has no separator; what follows it, if anything, is the
    separator and the string the other pieces are split from. *)
Lemma str_split_cons sep s piece pieces :
  str_split sep s = piece :: pieces →
  (sep ∉ chars piece)
  ∧ ((pieces = [] ∧ s = piece)
     ∨ (∃ s', s = piece +:+ String sep s' ∧ str_split sep s' = pieces)).
Proof.
  revert piece pieces. induction s as [|c s IH]; intros piece pieces; simpl.
  - intros [= <- <-]. split; [apply not_elem_of_nil|by left].
  - case_decide as Hc.
    + intros [= <- <-]. split; [apply not_elem_of_nil|].
      right. exists s. by rewrite Hc.
    + destruct (str_split sep s) as [|piece' pieces'] eqn:Hs.
      { by apply str_split_not_nil in Hs. }
      intros [= <- <-]. destruct (IH _ _ eq_refl) as [Hn Hrest].
      split.
      * simpl. by intros [?|?]%elem_of_cons.
      * destruct Hrest as [[-> ->]|(s' & -> & Hs')]; [by left|].
        right. by exists s'.
Qed.

Lemma str_split_whole sep s : sep ∉ chars s → str_split sep s = [s].
Proof.
  induction s as [|c s IH]; simpl; [done|].
  intros [Hc Hs]%not_elem_of_cons.
  rewrite decide_False by done. by rewrite IH.
Qed.

Lemma str_split_append sep piece s :
  sep ∉ chars piece →
  str_split sep (piece +:+ String sep s) = piece :: str_split sep s.
Proof.
  induction piece as [|c piece IH]; simpl.
  - intros _. change ("" +:+ String sep s) with (String sep s). simpl.
    by rewrite decide_True.
  - intros [Hc Hs]%not_elem_of_cons.
    change (String c piece +:+ String sep s)
      with (String c (piece +:+ String sep s)).
    simpl. rewrite decide_False by done. by rewrite IH.
Qed.

(** The header splits into [Bearer] and a token exactly when it is
    [Bearer], one space and a token without a space. *)
Lemma bearer_split authorization token :
  str_split " " authorization = ["Bearer"; token]
  ↔ authorization = "Bearer " +:+ token ∧ " "%char ∉ chars token.
Proof.
  split.
  - intros Hs. apply str_split_cons in Hs as [_ [[[=] _]|(s' & -> & Hs')]].
    apply str_split_cons in Hs' as [Hn [[_ ->]|(s'' & _ & Hs'')]];
      [done|].
    by apply str_split_not_nil in Hs''.
  - intros [-> Hn].
    change ("Bearer " +:+ token) with ("Bearer" +:+ String " " token).
    rewrite str_split_append.
    + by rewrite str_split_whole.
    + simpl. rewrite !not_elem_of_cons. repeat split; try done.
      apply not_elem_of_nil.
Qed.

Lemma parse_authorization_header_Some authorization :
  parse_authorization_header (Some authorization)
  = match str_split " " authorization with
    | [scheme; token] =>
        if decide (scheme = "Bearer") then Returns token
        else Raises (HTTPException 401 "invalid authorization header")
    | _ => Raises (HTTPException 401 "invalid authorization header")
    end.
Proof.
  unfold parse_authorization_header.
  destruct (str_split " " authorization) as [|scheme [|token [|? ?]]];
    cbn [length lookup list_lookup default]; repeat case_decide; try done.
  all: exfalso; simpl in *; intuition congruence.
Qed.

(** The header is accepted, and [token] returned, exactly when it is the
    word [Bearer], one space and [token], and [token] has no space in it;
    the empty token is accepted. *)
Theorem bearer_token_accepted_iff authorization token :
  parse_authorization_header authorization = Returns token
  ↔ authorization = Some ("Bearer " +:+ token) ∧ " "%char ∉ chars token.
Proof.
  destruct authorization as [a|]; [|split; [done|by intros [[=] _]]].
  rewrite parse_authorization_header_Some. split.
  - destruct (str_split " " a) as [|scheme [|token' [|? ?]]] eqn:Hs;
      try done.
    case_decide as Hb; [|done]. intros [= <-]. subst scheme.
    apply bearer_split in Hs as [-> Hn]. done.
  - intros [[= ->] Hn].
    assert (str_split " " ("Bearer " +:+ token) = ["Bearer"; token]) as ->
      by (by apply bearer_split).
    by rewrite decide_True.
Qed.

(** Every other header is refused with status 401: as missing when there
    is none, as invalid when it is not [Bearer], one space and a token
    without a space. *)
Theorem authorization_refused authorization :
  (parse_authorization_header authorization
   = Raises (HTTPException 401 "missing authorization header")
   ↔ authorization = None)
  ∧ (parse_authorization_header authorization
     = Raises (HTTPException 401 "invalid authorization header")
     ↔ ∃ a, authorization = Some a
         ∧ ∀ token, a = "Bearer " +:+ token → " "%char ∈ chars token).
Proof.
  destruct authorization as [a|].
  - rewrite parse_authorization_header_Some. split.
    + split; [|done].
      destruct (str_split " " a) as [|scheme [|token' [|? ?]]]; try done.
      by case_decide.
    + split.
      * intros Hp. exists a. split; [done|]. intros token Ha.
        destruct (decide (" "%char ∈ chars token)) as [|Hn]; [done|].
        assert (str_split " " a = ["Bearer"; token]) as Hs
          by (by apply bearer_split).
        rewrite Hs in Hp. by rewrite decide_True in Hp.
      * intros (a' & [= <-] & Ha).
        destruct (str_split " " a) as [|scheme [|token [|? ?]]] eqn:Hs;
          try done.
        case_decide as Hb; [|done]. subst scheme.
        apply bearer_split in Hs as [Hs Hn]. by apply Ha in Hs.
  - split; [done|]. split; [done|]. by intros (? & [=] & _).
Qed.

(** ** The login endpoint *)

Context `{!Catalog Other}.

Lemma getitem_setitem_eq {V} k (v : V) d : getitem k (setitem k v d) = Some v.
Proof.
  induction d as [|[k' v'] d IH]; simpl.
  - by rewrite decide_True.
  - destruct (decide (k' = k)) as [->|Hk]; simpl.
    + by rewrite decide_True.
    + by rewrite decide_False.
Qed.

Lemma getitem_setitem_ne {V} k k' (v : V) d :
  k ≠ k' → getitem k' (setitem k v d) = getitem k' d.
Proof.
  intros Hne. induction d as [|[k'' v''] d IH]; simpl.
  - by rewrite decide_False.
  - destruct (decide (k'' = k)) as [->|Hk]; simpl.
    + by rewrite !decide_False.
    + by rewrite IH.
Qed.

Lemma setitem_keys {V} k (v : V) d :
  (setitem k v d).*1 = if decide (k ∈ d.*1) then d.*1 else d.*1 ++ [k].
Proof.
  induction d as [|[k' v'] d IH]; cbn [setitem].
  - rewrite decide_False; [done|]. apply not_elem_of_nil.
  - rewrite fmap_cons. cbn [fst].
    destruct (decide (k' = k)) as [->|Hk]; rewrite fmap_cons; cbn [fst].
    + rewrite decide_True; [done|]. apply list_elem_of_here.
    + rewrite IH. destruct (decide (k ∈ d.*1)) as [Hin|Hin].
      * rewrite decide_True; [done|]. by apply list_elem_of_further.
      * rewrite decide_False; [done|].
        intros [?|?]%elem_of_cons; congruence.
Qed.

Lemma setitem_NoDup {V} k (v : V) d : NoDup d.*1 → NoDup (setitem k v d).*1.
Proof.
  intros Hd. rewrite setitem_keys. case_decide as Hk; [done|].
  apply NoDup_app. split; [done|]. split.
  - intros x Hx [->|[]%elem_of_nil]%elem_of_cons. done.
  - apply NoDup_singleton.
Qed.

Lemma getitem_is_Some {V} k (d : list (string * V)) :
  is_Some (getitem k d) ↔ k ∈ d.*1.
Proof.
  induction d as [|[k' v'] d IH]; simpl.
  - split; [by intros [? [=]]|by intros ?%elem_of_nil].
  - destruct (decide (k' = k)) as [->|Hk].
    + split; [intros _; apply list_elem_of_here|eauto].
    + rewrite IH. split; [by apply list_elem_of_further|].
      intros [?|?]%elem_of_cons; [congruence|done].
Qed.

(** The inner loop tries every name: it fails when one test fails, and
    otherwise says whether a test succeeded. *)
Lemma take_this_one_Some take tests (caps : value Other) found :
  take_this_one take tests caps = Some found →
  (∀ test, test ∈ tests → py_in test caps ≠ None)
  ∧ (found = true
     ↔ take = true
       ∨ ∃ test, test ∈ tests ∧ py_in test caps = Some true).
Proof.
  revert take. induction tests as [|test tests IH]; intros take; simpl.
  - intros [= <-]. split; [by intros ? ?%elem_of_nil|].
    split; [by left|]. intros [?|(? & ?%elem_of_nil & _)]; done.
  - destruct (py_in test caps) as [b|] eqn:Hb; [|done].
    intros [Hall Hf]%IH. split.
    + intros test' [->|?]%elem_of_cons; [congruence|by apply Hall].
    + rewrite Hf. split.
      * intros [Ht|(test' & Hin & Hp)].
        -- destruct b; [|by left].
           right. exists test. split; [apply list_elem_of_here|done].
        -- right. exists test'. split; [by apply list_elem_of_further|done].
      * intros [->|(test' & [->|Hin]%elem_of_cons & Hp)].
        -- left. by destruct b.
        -- left. rewrite Hp in Hb. by injection Hb as <-.
        -- right. eauto.
Qed.

Lemma take_this_one_None take tests (caps : value Other) :
  take_this_one take tests caps = None →
  ∃ test, test ∈ tests ∧ py_in test caps = None.
Proof.
  revert take. induction tests as [|test tests IH]; intros take; simpl;
    [done|].
  destruct (py_in test caps) as [b|] eqn:Hb.
  - intros (test' & ? & ?)%IH. exists test'.
    split; [by apply list_elem_of_further|done].
  - intros _. exists test. split; [apply list_elem_of_here|done].
Qed.

Lemma longthink_loop_snoc records rec (caps : value Other) inference accum :
  longthink_loop (records ++ [rec]) caps inference accum
  = match longthink_loop records caps inference accum with
    | None => None
    | Some accum' => longthink_loop [rec] caps inference accum'
    end.
Proof.
  revert accum. induction records as [|rec' records IH]; intros accum; simpl.
  - by destruct (take_this_one false (rec_models rec) caps) as [[]|].
  - destruct (take_this_one false (rec_models rec') caps) as [[]|];
      [apply IH|apply IH|done].
Qed.

Lemma longthink_loop_one rec (caps : value Other) inference accum accum' :
  longthink_loop [rec] caps inference accum = Some accum' →
  (∀ test, test ∈ rec_models rec → py_in test caps ≠ None)
  ∧ ((wanted caps rec
      ∧ accum' = setitem (function_name rec) (entry_of rec inference) accum)
     ∨ (¬ wanted caps rec ∧ accum' = accum)).
Proof.
  simpl.
  destruct (take_this_one false (rec_models rec) caps) as [found|] eqn:Ht;
    [|done].
  apply take_this_one_Some in Ht as [Hall Hf]. unfold wanted.
  destruct found; intros [= <-]; (split; [done|]).
  - left. split; [|done]. destruct Hf as [Hf _].
    by destruct (Hf eq_refl) as [?|?].
  - right. split; [|done]. intros Hw.
    destruct Hf as [_ Hf]. by specialize (Hf (or_intror Hw)).
Qed.

(** The loop over the catalogue: for every function name, [accum] either
    still holds what it held, no record of that name being wanted, or
    holds the entry of the last wanted record of that name. *)
Lemma longthink_loop_spec records (caps : value Other) inference accum
    accum' :
  longthink_loop records caps inference accum = Some accum' →
  (∀ rec test, rec ∈ records → test ∈ rec_models rec →
               py_in test caps ≠ None)
  ∧ (NoDup accum.*1 → NoDup accum'.*1)
  ∧ ∀ name,
      (getitem name accum' = getitem name accum
       ∧ ∀ rec, rec ∈ records → function_name rec = name →
                ¬ wanted caps rec)
      ∨ (∃ l1 rec l2,
           records = l1 ++ rec :: l2 ∧ function_name rec = name
           ∧ wanted caps rec
           ∧ (∀ rec', rec' ∈ l2 → function_name rec' = name →
                      ¬ wanted caps rec')
           ∧ getitem name accum' = Some (entry_of rec inference)).
Proof.
  revert accum'. induction records as [|rec records IH] using rev_ind;
    intros accum'.
  - intros [= <-]. split; [by intros ? ? ?%elem_of_nil|]. split; [done|].
    intros name. left. split; [done|]. by intros ? ?%elem_of_nil.
  - rewrite longthink_loop_snoc.
    destruct (longthink_loop records caps inference accum) as [mid|];
      [|done].
    destruct (IH mid eq_refl) as (Hall & Hnd & Hnames).
    intros [Hrec Hone]%longthink_loop_one. split; [|split].
    + intros rec' test [Hin|Heq%list_elem_of_singleton]%elem_of_app;
        [by apply Hall|subst; apply Hrec].
    + intros Hd. destruct Hone as [[_ ->]|[_ ->]]; [|by apply Hnd].
      by apply setitem_NoDup, Hnd.
    + intros name.
      destruct Hone as [[Hw ->]|[Hw ->]].
      * destruct (decide (function_name rec = name)) as [<-|Hne].
        { right. exists records, rec, []. repeat split; try done.
          - by intros ? ?%elem_of_nil.
          - apply getitem_setitem_eq. }
        rewrite (getitem_setitem_ne _ _ _ _ Hne).
        destruct (Hnames name)
          as [[Hg Hno]|(l1 & r & l2 & -> & ? & ? & Hl & ?)].
        -- left. split; [done|].
           intros rec' [?|Heq%list_elem_of_singleton]%elem_of_app;
             [by apply Hno|subst; intros; first [congruence|done]].
        -- right. exists l1, r, (l2 ++ [rec]).
           rewrite <- app_assoc. repeat split; try done.
           intros rec' [?|Heq%list_elem_of_singleton]%elem_of_app;
             [by apply Hl|subst; intros; first [congruence|done]].
      * destruct (Hnames name)
          as [[Hg Hno]|(l1 & r & l2 & -> & ? & ? & Hl & ?)].
        -- left. split; [done|].
           intros rec' [?|Heq%list_elem_of_singleton]%elem_of_app;
             [by apply Hno|subst; intros; first [congruence|done]].
        -- right. exists l1, r, (l2 ++ [rec]).
           rewrite <- app_assoc. repeat split; try done.
           intros rec' [?|Heq%list_elem_of_singleton]%elem_of_app;
             [by apply Hl|subst; intros; first [congruence|done]].
Qed.

Lemma take_this_one_total take tests (caps : value Other) :
  (∀ test, test ∈ tests → py_in test caps ≠ None) →
  is_Some (take_this_one take tests caps).
Proof.
  revert take. induction tests as [|test tests IH]; intros take Hall; simpl;
    [eauto|].
  destruct (py_in test caps) as [b|] eqn:Hb.
  - apply IH. intros test' Hin. by apply Hall, list_elem_of_further.
  - by destruct (Hall test (list_elem_of_here _ _)).
Qed.

Lemma longthink_loop_total records (caps : value Other) inference accum :
  (∀ rec test, rec ∈ records → test ∈ rec_models rec →
               py_in test caps ≠ None) →
  is_Some (longthink_loop records caps inference accum).
Proof.
  revert accum. induction records as [|rec records IH]; intros accum Hall;
    simpl; [eauto|].
  destruct (take_this_one_total false (rec_models rec) caps) as [found ->].
  { intros test. apply Hall, list_elem_of_here. }
  destruct found; apply IH; intros rec' test ?;
    by apply Hall, list_elem_of_further.
Qed.

(** The login endpoint fails its assertion when [model_dict] has no
    ["filter_caps"], and it responds exactly when the key is there and no
    membership test on a model name of the catalogue raises; the name of
    the loaded model is not asked for. *)
Theorem login_responds_iff inference :
  (model_dict inference !! "filter_caps" = None →
   _longthink_functions inference
   = inl (AssertionError ("filter_caps not present in "
                            +:+ model_keys_repr (model_dict inference))))
  ∧ ((∃ content, _longthink_functions inference = inr content)
     ↔ ∃ caps, model_dict inference !! "filter_caps" = Some caps
         ∧ ∀ rec test, rec ∈ db → test ∈ rec_models rec →
                       py_in test caps ≠ None).
Proof.
  unfold _longthink_functions.
  destruct (model_dict inference !! "filter_caps") as [caps|] eqn:Hk.
  - split; [done|].
    destruct (longthink_loop db caps inference []) as [accum|] eqn:Hl.
    + split; [|eauto]. intros _. exists caps. split; [done|].
      by apply longthink_loop_spec in Hl as [? _].
    + split; [by intros [? [=]]|]. intros (caps' & [= <-] & Hall).
      destruct (longthink_loop_total db caps inference [] Hall) as [? Hs].
      congruence.
  - split; [done|]. split; [by intros [? [=]]|]. by intros (? & [=] & _).
Qed.

(** The response of the login endpoint lists, each once, the function
    names of the records of the catalogue that have a model name in
    [filter_caps], and no other. *)
Theorem login_lists_wanted_functions inference caps accum :
  model_dict inference !! "filter_caps" = Some caps →
  longthink_loop db caps inference [] = Some accum →
  _longthink_functions inference
  = inr (dumps_login
           {| account := "self-hosted"; retcode := "OK";
              longthink_functions_today := 1;
              longthink_functions_today_v2 := accum;
              longthink_filters := []; chat_v1_style := true |})
  ∧ NoDup accum.*1
  ∧ ∀ name, name ∈ accum.*1
      ↔ ∃ rec, rec ∈ db ∧ function_name rec = name ∧ wanted caps rec.
Proof.
  intros Hk Hl. split; [|split].
  - unfold _longthink_functions. by rewrite Hk, Hl.
  - apply longthink_loop_spec in Hl as (_ & Hnd & _). apply Hnd.
    apply NoDup_nil_2.
  - intros name. rewrite <- getitem_is_Some.
    apply longthink_loop_spec in Hl as (_ & _ & Hnames).
    destruct (Hnames name) as [[-> Hno]|(l1 & rec & l2 & -> & ? & ? & _ & ->)].
    + split; [by intros [? [=]]|]. intros (rec & ? & ? & ?).
      by destruct (Hno rec).
    + split; [|eauto]. intros _. exists rec. split; [|done].
      apply elem_of_app. right. apply list_elem_of_here.
Qed.

(** When several wanted records of the catalogue share a function name,
    the response carries the entry of the last of them. *)
Theorem login_last_record_wins inference caps accum name j :
  model_dict inference !! "filter_caps" = Some caps →
  longthink_loop db caps inference [] = Some accum →
  getitem name accum = Some j →
  ∃ before rec after,
    db = before ++ rec :: after
    ∧ function_name rec = name ∧ wanted caps rec
    ∧ (∀ rec', rec' ∈ after → function_name rec' = name →
               ¬ wanted caps rec')
    ∧ j = entry_of rec inference.
Proof.
  intros _ Hl Hj. apply longthink_loop_spec in Hl as (_ & _ & Hnames).
  destruct (Hnames name) as [[Hg _]|(l1 & rec & l2 & ? & ? & ? & ? & Hg)].
  - by rewrite Hj in Hg.
  - exists l1, rec, l2. repeat split; try done. congruence.
Qed.

(** Every entry of the response says [is_liked: False], [likes: 0],
    [third_party: False] and names the model of the backend, [None] while
    none is loaded, whatever the catalogue says under these keys; the
    other keys of the catalogue's descriptor are passed on. *)
Theorem login_entries_are_stamped inference caps accum name j :
  model_dict inference !! "filter_caps" = Some caps →
  longthink_loop db caps inference [] = Some accum →
  getitem name accum = Some j →
  getitem "is_liked" j = Some (Some (VBool false))
  ∧ getitem "likes" j = Some (Some (VInt 0))
  ∧ getitem "third_party" j = Some (Some (VBool false))
  ∧ getitem "model" j = Some (VStr <$> model_name inference)
  ∧ ∃ rec, rec ∈ db ∧ function_name rec = name
      ∧ ∀ k, k ∉ ["is_liked"; "likes"; "third_party"; "model"] →
             getitem k j = getitem k (descriptor rec).
Proof.
  intros _ Hl Hj. apply longthink_loop_spec in Hl as (_ & _ & Hnames).
  destruct (Hnames name) as [[Hg _]|(l1 & rec & l2 & -> & ? & _ & _ & Hg)].
  { by rewrite Hj in Hg. }
  rewrite Hj in Hg. injection Hg as ->. unfold entry_of.
  repeat split.
  - rewrite !getitem_setitem_ne by done. apply getitem_setitem_eq.
  - rewrite !getitem_setitem_ne by done. apply getitem_setitem_eq.
  - rewrite !getitem_setitem_ne by done. apply getitem_setitem_eq.
  - apply getitem_setitem_eq.
  - exists rec. split; [|split; [done|]].
    + apply elem_of_app. right. apply list_elem_of_here.
    + intros k Hk. rewrite !not_elem_of_cons in Hk.
      destruct Hk as (? & ? & ? & ? & _).
      by rewrite !getitem_setitem_ne by done.
Qed.

End Properties.

(** ** The statements on the sample backend *)

Section Worked.

Import Sample.

(** The example of the specification: the contents ["Hel"] then ["Hello"]
    give the deltas ["Hel"] then ["lo"]. *)
Example hel_lo :
  deltas_for 0 (rewritten ∅ (usable growing))
  = [codepoints "Hel"; codepoints "lo"].
Proof. reflexivity. Qed.

(** Lengths and slices count characters, not bytes: after the one
    character U+20AC the content ["abc"] gives the delta ["bc"], and a
    file that holds that character alone has length 1, so a cursor at 2 is
    beyond it and a cursor at 1 is not. *)
Example euro_then_abc_deltas :
  deltas_for 0 (rewritten ∅ (usable euro_then_abc))
  = [codepoints "€"; codepoints "bc"].
Proof. reflexivity. Qed.

Example euro_file_cursor_beyond :
  _contrast (diff_euro 0 2) "id-1" (backend Stop)
  = Raises (HTTPException 400
              "cursor0=0 or cursor1=2 is beyond file length=1").
Proof. reflexivity. Qed.

Example euro_file_cursor_at_end :
  ∃ answer, _contrast (diff_euro 0 1) "id-1" (backend Stop) = Returns answer.
Proof. eexists. reflexivity. Qed.

Example hel_lo_chunks :
  chunks (chat_delta_streamer streaming (backend (uninterrupted growing)))
  = ["data: {choices: [{index: 0, delta: Hel}]}" +:+ LF +:+ LF;
     "data: {choices: [{index: 0, delta: lo}]}" +:+ LF +:+ LF;
     "data: [DONE]" +:+ LF +:+ LF].
Proof. reflexivity. Qed.

(** The example of the specification: [cursor0 = -1] with function
    ["edit"] is rejected for its negative cursor. *)
Example negative_cursor_rejected :
  _contrast (diff "edit" "a.py" (-1) 0) "id-1" (backend Stop)
  = Raises (HTTPException 400 "cursor0=-1 or cursor1=0 is negative").
Proof. reflexivity. Qed.

(** The reconstruction law on [growing], for index 0. *)
Lemma deltas_rebuild_final_content_witness :
  infer (backend (uninterrupted growing)) streaming (VBool true)
  = uninterrupted growing
  ∧ monotone_prefixes (contents_for 0 (usable growing)) = true
  ∧ chunks (chat_delta_streamer streaming (backend (uninterrupted growing)))
    = (sse <$> rewritten ∅ (usable growing)) ++ [done_chunk]
  ∧ join (deltas_for 0 (rewritten ∅ (usable growing)))
    = final (contents_for 0 (usable growing)).
Proof.
  split; [reflexivity|]. split; [reflexivity|].
  apply (deltas_rebuild_final_content streaming
           (backend (uninterrupted growing)) growing 0); reflexivity.
Defined.

(** A streaming request over [growing]. *)
Lemma streaming_frames_then_marker_witness :
  streaming !! "stream" = Some (VBool true)
  ∧ truthy (VBool true) = true
  ∧ infer (backend (uninterrupted growing)) streaming (VBool true)
    = uninterrupted growing
  ∧ inference_streamer streaming (backend (uninterrupted growing))
    = Gen (((λ r, "data: " +:+ dumps r +:+ LF +:+ LF) <$> usable growing)
             ++ ["data: [DONE]" +:+ LF +:+ LF])
          (Returns tt).
Proof.
  split; [reflexivity|]. split; [reflexivity|]. split; [reflexivity|].
  apply (streaming_frames_then_marker streaming
           (backend (uninterrupted growing)) (VBool true) growing);
    reflexivity.
Defined.

(** A non-streaming request over [growing]: its last snapshot alone. *)
Lemma single_shot_last_snapshot_witness :
  single_shot !! "stream" = Some (VBool false)
  ∧ truthy (VBool false) = false
  ∧ infer (backend (uninterrupted growing)) single_shot (VBool false)
    = uninterrupted growing
  ∧ last (usable growing) = Some hello
  ∧ inference_streamer single_shot (backend (uninterrupted growing))
    = Gen [dumps hello] (Returns tt).
Proof.
  split; [reflexivity|]. split; [reflexivity|]. split; [reflexivity|].
  split; [reflexivity|].
  apply (single_shot_last_snapshot single_shot
           (backend (uninterrupted growing)) (VBool false) growing hello);
    reflexivity.
Defined.

(** A non-streaming request over [silent]. *)
Lemma single_shot_empty_chunk_witness :
  single_shot !! "stream" = Some (VBool false)
  ∧ truthy (VBool false) = false
  ∧ infer (backend (uninterrupted silent)) single_shot (VBool false)
    = uninterrupted silent
  ∧ usable silent = []
  ∧ inference_streamer single_shot (backend (uninterrupted silent))
    = Gen [""] (Returns tt).
Proof.
  split; [reflexivity|]. split; [reflexivity|]. split; [reflexivity|].
  split; [reflexivity|].
  apply (single_shot_empty_chunk single_shot
           (backend (uninterrupted silent)) (VBool false) silent);
    reflexivity.
Defined.

(** The chat adapter over a backend that delivers nothing. *)
Lemma chat_marker_is_last_witness :
  infer (backend (uninterrupted nothing)) streaming (VBool true)
  = uninterrupted nothing
  ∧ chunks (chat_delta_streamer streaming (backend (uninterrupted nothing)))
    = [] ++ ["data: [DONE]" +:+ LF +:+ LF].
Proof.
  split; [reflexivity|].
  destruct (chat_marker_is_last streaming (backend (uninterrupted nothing))
              nothing eq_refl) as (_ & Hout & _).
  exact Hout.
Defined.

(** Both adapters over [cancelled]. *)
Lemma cancellation_ends_quietly_witness :
  streaming !! "stream" = Some (VBool true)
  ∧ fate cancelled = Some CancelledError
  ∧ inference_streamer streaming (backend cancelled)
    = Gen (sse <$> [hel; hello]) (Returns tt)
  ∧ chat_delta_streamer streaming (backend cancelled)
    = Gen (sse <$> rewritten ∅ [hel; hello]) (Returns tt).
Proof.
  split; [reflexivity|]. split; [reflexivity|].
  destruct (cancellation_ends_quietly streaming (backend cancelled)
              (VBool true) eq_refl) as (Hplain & Hchat & _).
  split; [apply Hplain | apply Hchat]; reflexivity.
Defined.

(** A known cursor file with a negative [cursor0] and a [cursor1] beyond
    the end of the file: the negative cursor is reported. *)
Lemma contrast_cursor_checks_in_order_witness :
  function (diff "edit" "a.py" (-1) 9) ≠ "diff-anywhere"
  ∧ _contrast (diff "edit" "a.py" (-1) 9) "id-1" (backend Stop)
    = Raises (HTTPException 400 "cursor0=-1 or cursor1=9 is negative").
Proof.
  assert (function (diff "edit" "a.py" (-1) 9) ≠ "diff-anywhere") as Hf
    by discriminate.
  split; [exact Hf|].
  destruct (contrast_cursor_checks_in_order (diff "edit" "a.py" (-1) 9)
              "id-1" (backend Stop) Hf) as [_ Hfile].
  destruct (Hfile (codepoints "hello") eq_refl) as [Hneg _].
  apply Hneg. left. reflexivity.
Defined.

(** A ["diff-anywhere"] request whose cursor fields would fail every
    check. *)
Lemma diff_anywhere_forgets_cursor_witness :
  function (diff "diff-anywhere" "b.py" 7 (-3)) = "diff-anywhere"
  ∧ ∃ post',
      contrast_checks (diff "diff-anywhere" "b.py" 7 (-3)) = Returns post'
      ∧ contrast_request post' "id-1" !! "cursor0" = Some (VInt (-1))
      ∧ contrast_request post' "id-1" !! "cursor1" = Some (VInt (-1))
      ∧ contrast_request post' "id-1" !! "cursor_file" = Some (VStr "").
Proof.
  split; [reflexivity|].
  destruct (diff_anywhere_forgets_cursor (diff "diff-anywhere" "b.py" 7 (-3))
              "id-1" (backend Stop) eq_refl)
    as (post' & Hc & _ & (H0 & H1 & Hfile & _) & _).
  exists post'. auto.
Defined.

(** C6, as the specification words it, fails on the chat endpoint: with
    model ["m1"] loaded and chat available, a call that names
    ["CONTRASTcode"] is rejected as a mismatch, although the name is the
    wildcard. *)
Lemma chat_rejects_the_wildcard :
  ¬ mismatch_rule_as_specified (Chat (chat "CONTRASTcode")) "id-1"
      (backend Stop).
Proof.
  unfold mismatch_rule_as_specified, mismatch_expected. intros H.
  destruct (H "m1" eq_refl) as [H1 _].
  destruct (H1 eq_refl) as (_ & Hw & _). by apply Hw.
Qed.

(** The mismatch check comes after the other checks of an endpoint: the
    diff endpoint answers 400 to a cursor file that is not among the
    sources, and the chat endpoint reports that chat is not available,
    before either looks at the model name. *)
Example cursor_checks_come_first :
  _contrast {| diff_base := sampling "m2"; intent := "fix"; sources := [];
               cursor_file := "a.py"; cursor0 := 0; cursor1 := 0;
               function := "edit"; max_edits := 4 |} "id-1" (backend Stop)
  = Raises (HTTPException 400 "cursor_file='a.py' is not in sources=[]").
Proof. reflexivity. Qed.

Example chat_gate_comes_first :
  _chat (chat "m2") "id-1"
    {| model_name := Some "m1";
       model_dict := {[ "filter_caps" := VOther tt ]};
       chat_is_available := false; last_error := None;
       infer := λ _ _, Stop |}
  = Raises (HTTPException 401 "chat is not available for m1 model").
Proof. reflexivity. Qed.

(** The chat endpoint on a call that names ["CONTRASTcode"]. *)
Lemma model_mismatch_rule_witness :
  model_name (backend Stop) = Some "m1"
  ∧ (chat_is_available (backend Stop) = true →
     serve (Chat (chat "CONTRASTcode")) "id-1" (backend Stop)
     = Raises (ModelMismatch "CONTRASTcode" "m1")
     ↔ "CONTRASTcode" ≠ "" ∧ "CONTRASTcode" ≠ "m1").
Proof.
  split; [reflexivity|].
  exact (model_mismatch_rule (Chat (chat "CONTRASTcode")) "id-1"
           (backend Stop) "m1" eq_refl).
Defined.

(** C5, where the code departs from it: the backend has a model loaded and
    a [model_dict] that is not empty, the caller names no model, and the
    completion endpoint still rejects the call with [UnknownModel]; the
    diff and chat endpoints answer on the same backend. *)
Theorem completion_rejects_loaded_model :
  model_name (backend Stop) = Some "m1"
  ∧ model_dict (backend Stop) ≠ ∅
  ∧ _completion (text "") "id-1" (backend Stop)
    = Raises (HTTPException 401 "unknown model 'm1'")
  ∧ (∃ answer,
       _contrast (diff "edit" "a.py" 0 0) "id-1" (backend Stop)
       = Returns answer)
  ∧ (∃ answer, _chat (chat "") "id-1" (backend Stop) = Returns answer).
Proof.
  split; [reflexivity|]. split; [apply map_non_empty_singleton|].
  split; [reflexivity|]. split; eexists; reflexivity.
Qed.

(** *** More statements on the sample backend *)

(** A backend error after one snapshot: the frame of that snapshot, then
    the error. *)
Lemma backend_error_propagates_witness :
  streaming !! "stream" = Some (VBool true)
  ∧ KeyError "tokens" ≠ CancelledError
  ∧ fate failing = Some (KeyError "tokens")
  ∧ inference_streamer streaming (backend failing)
    = Gen (sse <$> [hel]) (Raises (KeyError "tokens"))
  ∧ chat_delta_streamer streaming (backend failing)
    = Gen (sse <$> rewritten ∅ [hel]) (Raises (KeyError "tokens")).
Proof.
  assert (KeyError "tokens" ≠ CancelledError) as He by discriminate.
  split; [reflexivity|]. split; [exact He|]. split; [reflexivity|].
  destruct (backend_error_propagates streaming (backend failing)
              (VBool true) (KeyError "tokens") eq_refl He)
    as [Hplain Hchat].
  split; [apply Hplain | apply Hchat]; reflexivity.
Defined.

Lemma plain_adapter_needs_stream_key_witness :
  (∅ : gmap string (value unit)) !! "stream" = None
  ∧ inference_streamer ∅ (backend (uninterrupted growing))
    = Gen [] (Raises (KeyError "stream")).
Proof.
  split; [reflexivity|].
  apply (plain_adapter_needs_stream_key ∅ (backend (uninterrupted growing))).
  reflexivity.
Defined.

Lemma chat_without_choices_is_plain_witness :
  streaming !! "stream" = Some (VBool true)
  ∧ (∀ r, r ∈ taken plain_feed → choices r = None)
  ∧ chat_delta_streamer streaming (backend plain_feed)
    = inference_streamer streaming (backend plain_feed).
Proof.
  assert (∀ r, r ∈ taken plain_feed → choices r = None) as Hn.
  { intros r Hr. simpl in Hr.
    apply elem_of_cons in Hr as [->|Hr]; [reflexivity|].
    apply elem_of_cons in Hr as [->|Hr]; [reflexivity|].
    by apply elem_of_nil in Hr. }
  split; [reflexivity|]. split; [exact Hn|].
  exact (chat_without_choices_is_plain streaming (backend plain_feed)
           eq_refl Hn).
Defined.

Lemma no_model_loaded_witness :
  model_name loading = None
  ∧ serve (Chat (chat "")) "id-1" loading
    = Raises (HTTPException 401 "out of memory").
Proof.
  split; [reflexivity|].
  exact (no_model_loaded (Chat (chat "")) "id-1" loading eq_refl).
Defined.

Lemma highlight_takes_one_token_witness :
  contrast_checks (diff "highlight" "a.py" 0 5)
  = Returns (one_token (diff "highlight" "a.py" 0 5))
  ∧ max_tokens (one_token (diff "highlight" "a.py" 0 5)) = 1.
Proof.
  split; [reflexivity|].
  exact (highlight_takes_one_token (diff "highlight" "a.py" 0 5)
           (one_token (diff "highlight" "a.py" 0 5)) eq_refl).
Defined.

Lemma contrast_checks_keep_the_rest_witness :
  contrast_checks (diff "highlight" "a.py" 0 5)
  = Returns (one_token (diff "highlight" "a.py" 0 5))
  ∧ sources (one_token (diff "highlight" "a.py" 0 5))
    = sources (diff "highlight" "a.py" 0 5)
  ∧ cursor1 (one_token (diff "highlight" "a.py" 0 5)) = 5.
Proof.
  split; [reflexivity|].
  destruct (contrast_checks_keep_the_rest (diff "highlight" "a.py" 0 5)
              (one_token (diff "highlight" "a.py" 0 5)) eq_refl)
    as (_ & _ & _ & _ & _ & Hs & _ & _ & Hcursor).
  split; [exact Hs|]. apply Hcursor. discriminate.
Defined.

Lemma chat_unavailable_iff_witness :
  model_name mute = Some "m1"
  ∧ (_chat (chat "m2") "id-1" mute
     = Raises (HTTPException 401
                 ("chat is not available for " +:+ "m1" +:+ " model"))
     ↔ chat_is_available mute = false).
Proof.
  split; [reflexivity|].
  exact (chat_unavailable_iff (chat "m2") "id-1" mute "m1" eq_refl).
Defined.

Lemma endpoints_raise_400_or_401_witness :
  serve (Contrast (diff "edit" "b.py" 0 0)) "id-1" (backend Stop)
  = Raises (HTTPException 400 "cursor_file='b.py' is not in sources=[a.py]")
  ∧ ∃ detail,
      HTTPException 400 "cursor_file='b.py' is not in sources=[a.py]"
      = HTTPException 401 detail
      ∨ (HTTPException 400 "cursor_file='b.py' is not in sources=[a.py]"
         = HTTPException 400 detail
         ∧ ∃ post, Contrast (diff "edit" "b.py" 0 0) = Contrast post).
Proof.
  split; [reflexivity|].
  exact (endpoints_raise_400_or_401 (Contrast (diff "edit" "b.py" 0 0))
           "id-1" (backend Stop) _ eq_refl).
Defined.

Lemma login_lists_wanted_functions_witness :
  model_dict (backend Stop) !! "filter_caps" = Some (VOther tt)
  ∧ longthink_loop db (VOther tt) (backend Stop) []
    = Some (sample_accum Stop)
  ∧ _longthink_functions (backend Stop)
    = inr "{functions: [completionexplain]}"
  ∧ NoDup (sample_accum Stop).*1.
Proof.
  assert (longthink_loop db (VOther tt) (backend Stop) []
          = Some (sample_accum Stop)) as Hl by reflexivity.
  split; [reflexivity|]. split; [exact Hl|].
  destruct (login_lists_wanted_functions (backend Stop) (VOther tt)
              (sample_accum Stop) eq_refl Hl) as (Hr & Hnd & _).
  split; [exact Hr | exact Hnd].
Defined.

Lemma login_last_record_wins_witness :
  model_dict (backend Stop) !! "filter_caps" = Some (VOther tt)
  ∧ longthink_loop db (VOther tt) (backend Stop) []
    = Some (sample_accum Stop)
  ∧ getitem "explain" (sample_accum Stop)
    = Some (entry_of explain_new (backend Stop))
  ∧ ∃ before rec after,
      db = before ++ rec :: after
      ∧ function_name rec = "explain" ∧ wanted (VOther tt) rec
      ∧ (∀ rec', rec' ∈ after → function_name rec' = "explain" →
                 ¬ wanted (VOther tt) rec')
      ∧ entry_of explain_new (backend Stop) = entry_of rec (backend Stop).
Proof.
  assert (longthink_loop db (VOther tt) (backend Stop) []
          = Some (sample_accum Stop)) as Hl by reflexivity.
  assert (getitem "explain" (sample_accum Stop)
          = Some (entry_of explain_new (backend Stop))) as Hg
    by reflexivity.
  split; [reflexivity|]. split; [exact Hl|]. split; [exact Hg|].
  exact (login_last_record_wins (backend Stop) (VOther tt)
           (sample_accum Stop) "explain" _ eq_refl Hl Hg).
Defined.

Lemma login_entries_are_stamped_witness :
  model_dict (backend Stop) !! "filter_caps" = Some (VOther tt)
  ∧ longthink_loop db (VOther tt) (backend Stop) []
    = Some (sample_accum Stop)
  ∧ getitem "completion" (sample_accum Stop)
    = Some (entry_of completion_rec (backend Stop))
  ∧ getitem "likes" (entry_of completion_rec (backend Stop))
    = Some (Some (VInt 0))
  ∧ getitem "model" (entry_of completion_rec (backend Stop))
    = Some (Some (VStr "m1")).
Proof.
  assert (longthink_loop db (VOther tt) (backend Stop) []
          = Some (sample_accum Stop)) as Hl by reflexivity.
  assert (getitem "completion" (sample_accum Stop)
          = Some (entry_of completion_rec (backend Stop))) as Hg
    by reflexivity.
  split; [reflexivity|]. split; [exact Hl|]. split; [exact Hg|].
  destruct (login_entries_are_stamped (backend Stop) (VOther tt)
              (sample_accum Stop) "completion" _ eq_refl Hl Hg)
    as (_ & Hlikes & _ & Hmodel & _).
  split; [exact Hlikes | exact Hmodel].
Defined.

End Worked.
